(** * The Databricks authenticator extension: token cache and round tripper

    A shallow embedding of [extension/databricksauthextension]: the token
    exchange ([exchangeToken]), the lazily refreshed cache ([GetToken]), the
    STS identity-token provider ([GetWebIdentityToken]) and the bearer round
    tripper ([RoundTrip]).

    Conventions.
    - A Go result tuple [(v, err)] is a pair whose last component is an
      [option error]; [None] is the nil error.
    - [time.Time] is an instant on one time line, in nanoseconds, as [Z];
      [time.Duration] is a signed 64-bit number of nanoseconds, as [Z] with
      the wrap-around of its arithmetic written out.
    - What the program asks of the outside (the clock, the identity
      provider, the HTTP client, the JSON decoder) is answered by a [World]
      and by the [Externals] class; the program's own state is threaded
      through a small state monad. *)

From Stdlib Require Import ZArith Lia.
From stdpp Require Import base option list strings pretty gmap.

#[local] Open Scope Z_scope.

(** ** Package [time] *)

Module time.

Abbreviation Duration := Z (only parsing).
Abbreviation Time := Z (only parsing).

Definition min_int64 : Z := - 2 ^ 63.
Definition max_int64 : Z := 2 ^ 63 - 1.

(** Two's-complement wrap-around of 64-bit signed arithmetic. *)
Definition wrap64 (z : Z) : Z := (z + 2 ^ 63) mod 2 ^ 64 - 2 ^ 63.

Definition Nanosecond : Duration := 1.
Definition Microsecond : Duration := 1000 * Nanosecond.
Definition Millisecond : Duration := 1000 * Microsecond.
Definition Second : Duration := 1000 * Millisecond.
Definition Minute : Duration := 60 * Second.
Definition Hour : Duration := 60 * Minute.

(** [a * b] and [-d] on [Duration]. *)
Definition mul (a b : Duration) : Duration := wrap64 (a * b).
Definition neg (d : Duration) : Duration := wrap64 (- d).

(** The zero [Time]: January 1 of year 1, counted from the Unix epoch. *)
Definition zero : Time := -62135596800 * Second.

(** [t.Add(d)] and [t.Before(u)]. *)
Definition Add (t : Time) (d : Duration) : Time := t + d.
Definition Before (t u : Time) : bool := bool_decide (t < u).

(** [int(d.Seconds())]: the float64 number of seconds, truncated. It is
    used on whole numbers of seconds only, where the float is exact. *)
Definition Seconds (d : Duration) : Z := Z.quot d Second.

End time.

(** ** Errors ([errors], [fmt.Errorf]) *)

Inductive error : Type :=
  | errorString (msg : string)
  | wrapError (msg : string) (err : error).

Definition Error (e : error) : string :=
  match e with
  | errorString msg => msg
  | wrapError msg _ => msg
  end.

Definition Unwrap (e : error) : option error :=
  match e with
  | errorString _ => None
  | wrapError _ err => Some err
  end.

(** [fmt.Errorf(prefix + "%w", err)]. *)
Definition Errorf_w (prefix : string) (err : error) : error :=
  wrapError (prefix +:+ Error err) err.

(** ** State passing *)

Definition ST (S A : Type) : Type := S → A * S.

Definition ret {S A : Type} (a : A) : ST S A := λ s, (a, s).

Definition bind {S A B : Type} (m : ST S A) (k : A → ST S B) : ST S B :=
  λ s, let (a, s') := m s in k a s'.

Notation "'let*' x := m 'in' k" := (bind m (λ x, k))
  (at level 10, x pattern, m at level 100, k at level 200,
   format "'[v' 'let*'  x  :=  m  'in'  '/' k ']'").

(** ** Constants of token.go *)

Definition oidcTokenEndpoint : string := "/oidc/v1/token".
Definition grantTypeTokenExchange : string :=
  "urn:ietf:params:oauth:grant-type:token-exchange".
Definition tokenTypeJWT : string := "urn:ietf:params:oauth:token-type:jwt".
Definition defaultTokenTTL : Z := 1 * time.Hour.

Definition StatusOK : Z := 200.

(** ** Wire types *)

Record tokenExchangeResponse : Type := {
  AccessToken : string;
  TokenType : string;
  ExpiresIn : Z;
}.

Record tokenExchangeErrorResponse : Type := {
  Error_ : string;
  ErrorDescription : string;
}.

(** The request handed to [httpClient.Do]: method, URL, the form values in
    the order they are set, and the Content-Type header. *)
Record TokenRequest : Type := {
  Method : string;
  URL : string;
  Form : list (string * string);
  ContentType : string;
}.

(** A response: its status code and what [io.ReadAll(resp.Body)] yields. *)
Record Response : Type := {
  StatusCode : Z;
  Body : string * option error;
}.

(** ** What the program takes from libraries *)

Class Externals : Type := {
  (** [json.Unmarshal(body, &tokenResp)]: the struct as it is left, and the
      error. *)
  json_Unmarshal_token : string → tokenExchangeResponse * option error;
  (** [json.Unmarshal(body, &errResp)]. *)
  json_Unmarshal_error : string → tokenExchangeErrorResponse * option error;
  (** The error of [http.NewRequestWithContext(ctx, method, url, body)]. *)
  http_NewRequest : string → string → option error;
}.

(** The outside world of one cache: the successive readings of
    [time.Now()], the successive answers of the identity provider and of
    the HTTP client. *)
Record World : Type := {
  clock : nat → Z;
  awsProvider : nat → string * option error;
  httpClient_Do : nat → TokenRequest → Response + error;
}.

(** ** The token cache *)

Record tokenCache : Type := {
  workspaceURL : string;
  spClientID : string;
  expiryBuffer : Z;
  cachedToken : string;
  tokenExpiry : Z;
}.

Definition set_cached (c : tokenCache) (token : string) (expiry : Z) : tokenCache :=
  {| workspaceURL := workspaceURL c;
     spClientID := spClientID c;
     expiryBuffer := expiryBuffer c;
     cachedToken := token;
     tokenExpiry := expiry |}.

(** The cache together with the counters of what it has asked of the
    world so far. *)
Record Sys : Type := {
  cache : tokenCache;
  ticks : nat;
  awsCalls : nat;
  sent : list TokenRequest;
}.

Definition M (A : Type) : Type := ST Sys A.

(** The four ways the state moves on. *)
Definition with_cache (c : tokenCache) (s : Sys) : Sys :=
  {| cache := c; ticks := ticks s; awsCalls := awsCalls s; sent := sent s |}.

Definition ticked (s : Sys) : Sys :=
  {| cache := cache s; ticks := S (ticks s); awsCalls := awsCalls s; sent := sent s |}.

Definition asked (s : Sys) : Sys :=
  {| cache := cache s; ticks := ticks s; awsCalls := S (awsCalls s); sent := sent s |}.

Definition sending (req : TokenRequest) (s : Sys) : Sys :=
  {| cache := cache s; ticks := ticks s; awsCalls := awsCalls s; sent := sent s ++ [req] |}.

Definition get_cache : M tokenCache := λ s, (cache s, s).

Definition put_cache (c : tokenCache) : M unit := λ s, (tt, with_cache c s).

(** The test of lines 56, 119 and 130 on a cached token, at the instant
    [now]: [token != "" && now.Before(expiry.Add(-buffer))]. *)
Definition usable (token : string) (expiry buffer : Z) (now : Z) : bool :=
  bool_decide (token ≠ "") && time.Before now (time.Add expiry (time.neg buffer)).

Section Cache.

Context `{ext : Externals} (W : World).

(** [time.Now()]. *)
Definition time_Now : M Z :=
  λ s, (clock W (ticks s), ticked s).

(** [c.awsProvider.GetWebIdentityToken(ctx)]. *)
Definition awsProvider_GetWebIdentityToken : M (string * option error) :=
  λ s, (awsProvider W (awsCalls s), asked s).

(** [c.httpClient.Do(req)]. *)
Definition httpClient_do (req : TokenRequest) : M (Response + error) :=
  λ s, (httpClient_Do W (length (sent s)) req, sending req s).

(** token.go, lines 183-209: what [exchangeToken] makes of a response. *)
Definition readResponse (resp : Response) : string * Z * option error :=
  match Body resp with
  | (_, Some err) =>
      ("", 0, Some (Errorf_w "failed to read token exchange response: " err))
  | (body, None) =>
      if bool_decide (StatusCode resp ≠ StatusOK) then
        let (errResp, uerr) := json_Unmarshal_error body in
        if bool_decide (uerr = None) && bool_decide (Error_ errResp ≠ "") then
          ("", 0, Some (errorString
             ("token exchange failed (" +:+ Error_ errResp +:+ "): "
                +:+ ErrorDescription errResp)))
        else
          ("", 0, Some (errorString
             ("token exchange failed with status " +:+ pretty (StatusCode resp))))
      else
        match json_Unmarshal_token body with
        | (_, Some err) =>
            ("", 0, Some (Errorf_w "failed to parse token exchange response: " err))
        | (tokenResp, None) =>
            if bool_decide (AccessToken tokenResp = "") then
              ("", 0, Some (errorString "token exchange response missing access_token"))
            else
              let expiresIn := ExpiresIn tokenResp in
              let expiresIn :=
                if bool_decide (expiresIn ≤ 0) then time.Seconds defaultTokenTTL
                else expiresIn in
              (AccessToken tokenResp, expiresIn, None)
        end
  end.

(** token.go, lines 163-175: the request of the exchange. *)
Definition exchangeRequest (c : tokenCache) (awsToken : string) : TokenRequest :=
  {| Method := "POST";
     URL := workspaceURL c +:+ oidcTokenEndpoint;
     Form := [("grant_type", grantTypeTokenExchange);
              ("subject_token", awsToken);
              ("subject_token_type", tokenTypeJWT);
              ("client_id", spClientID c);
              ("scope", "all-apis")];
     ContentType := "application/x-www-form-urlencoded" |}.

(** The two halves of [exchangeToken], for callers that are interleaved:
    lines 158-175, up to the request, and lines 177-209, from what
    [httpClient.Do] returns. *)
Definition exchangeStart (c : tokenCache) (aws : string * option error)
    : error + TokenRequest :=
  match aws with
  | (_, Some err) => inl (Errorf_w "failed to get AWS token: " err)
  | (awsToken, None) =>
      let req := exchangeRequest c awsToken in
      match http_NewRequest (Method req) (URL req) with
      | Some err => inl (Errorf_w "failed to create token exchange request: " err)
      | None => inr req
      end
  end.

Definition exchangeFinish (r : Response + error) : string * Z * option error :=
  match r with
  | inr err => ("", 0, Some (Errorf_w "token exchange request failed: " err))
  | inl resp => readResponse resp
  end.

(** [func (c *tokenCache) exchangeToken(ctx) (string, int, error)]. *)
Definition exchangeToken : M (string * Z * option error) :=
  let* (awsToken, err) := awsProvider_GetWebIdentityToken in
  match err with
  | Some err => ret ("", 0, Some (Errorf_w "failed to get AWS token: " err))
  | None =>
      let* c := get_cache in
      let req := exchangeRequest c awsToken in
      match http_NewRequest (Method req) (URL req) with
      | Some err =>
          ret ("", 0, Some (Errorf_w "failed to create token exchange request: " err))
      | None =>
          let* r := httpClient_do req in
          match r with
          | inr err =>
              ret ("", 0, Some (Errorf_w "token exchange request failed: " err))
          | inl resp => ret (readResponse resp)
          end
      end
  end.

(** The test of lines 119 and 130:
    [c.cachedToken != "" && time.Now().Before(c.tokenExpiry.Add(-c.expiryBuffer))].
    The clock is read only when the cached token is not empty. *)
Definition cacheFresh : M bool :=
  let* c := get_cache in
  if bool_decide (cachedToken c ≠ "") then
    let* now := time_Now in
    ret (usable (cachedToken c) (tokenExpiry c) (expiryBuffer c) now)
  else ret false.

(** Lines 118-124: the read-locked fast path; [Some token] when it
    returns the cached token. *)
Definition fastPath : M (option string) :=
  let* ok := cacheFresh in
  if ok : bool then
    let* c := get_cache in
    ret (Some (cachedToken c))
  else ret None.

(** Lines 127-149: the function handed to [sfGroup.Do]. *)
Definition refresh : M (string * option error) :=
  let* hit := fastPath in
  match hit with
  | Some token => ret (token, None)
  | None =>
      let* (token, expiresIn, err) := exchangeToken in
      match err with
      | Some err => ret ("", Some err)
      | None =>
          let* now := time_Now in
          let expiry := time.Add now (time.mul expiresIn time.Second) in
          let* c := get_cache in
          let* _ := put_cache (set_cached c token expiry) in
          ret (token, None)
      end
  end.

(** [sfGroup.Do("token", fn)] for a caller that finds no call in flight
    and is joined by nobody: it runs [fn] and returns its results. *)
Definition sfGroup_Do (fn : M (string * option error)) : M (string * option error) := fn.

(** Lines 126-153: the slow path. *)
Definition slowPath : M (string * option error) :=
  let* (result, err) := sfGroup_Do refresh in
  match err with
  | Some err => ret ("", Some err)
  | None => ret (result, None)
  end.

(** [func (c *tokenCache) GetToken(ctx) (string, error)], one caller at a
    time. *)
Definition GetToken : M (string * option error) :=
  let* hit := fastPath in
  match hit with
  | Some token => ret (token, None)
  | None => slowPath
  end.

(** ** Names for the states [GetToken] passes through *)

(** The cached token passes the test at the next reading of the clock. *)
Definition freshAt (s : Sys) : bool :=
  usable (cachedToken (cache s)) (tokenExpiry (cache s))
        (expiryBuffer (cache s)) (clock W (ticks s)).

(** The state after a test of the cache that failed: the clock was read
    if the cached token is not empty. *)
Definition missed (s : Sys) : Sys :=
  if bool_decide (cachedToken (cache s) ≠ "") then ticked s else s.

(** The state in which [refresh] has stored the token of a successful
    exchange that ended in state [s] (lines 142-146). *)
Definition stored (token : string) (expiresIn : Z) (s : Sys) : Sys :=
  with_cache
    (set_cached (cache s) token
       (time.Add (clock W (ticks s)) (time.mul expiresIn time.Second)))
    (ticked s).

(** The exchange started in state [s] gets the response [resp]: the
    identity provider gives a token, the request is built and the HTTP
    client returns [resp]. *)
Definition answered (s : Sys) (resp : Response) : Prop :=
  ∃ awsToken,
    awsProvider W (awsCalls s) = (awsToken, None) ∧
    http_NewRequest "POST" (workspaceURL (cache s) +:+ oidcTokenEndpoint) = None ∧
    httpClient_Do W (length (sent s)) (exchangeRequest (cache s) awsToken) = inl resp.

End Cache.

(** ** The STS identity-token provider *)

Module STSTokenProvider.

(** The fields of [sts.GetWebIdentityTokenOutput] the provider reads. *)
Record Output : Type := {
  WebIdentityToken : option string;
  Expiration : option Z;
}.

(** The provider's cached token and its expiry. *)
Record t : Type := {
  cachedToken : string;
  tokenExpiry : Z;
}.

Record World : Type := {
  clock : nat → Z;
  stsClient : nat → Output + error;
}.

Record Sys : Type := {
  self : t;
  ticks : nat;
  stsCalls : nat;
}.

(** The constant of line 53. *)
Definition expiryBuffer : Z := 30 * time.Second.

Section Provider.

Context (W : World).

Definition time_Now : ST Sys Z :=
  λ s, (clock W (ticks s),
        {| self := self s; ticks := S (ticks s); stsCalls := stsCalls s |}).

Definition stsClient_GetWebIdentityToken : ST Sys (Output + error) :=
  λ s, (stsClient W (stsCalls s),
        {| self := self s; ticks := ticks s; stsCalls := S (stsCalls s) |}).

Definition get_self : ST Sys t := λ s, (self s, s).

Definition put_self (p : t) : ST Sys unit :=
  λ s, (tt, {| self := p; ticks := ticks s; stsCalls := stsCalls s |}).

(** The test of line 56. *)
Definition cacheFresh : ST Sys bool :=
  let* p := get_self in
  if bool_decide (cachedToken p ≠ "") then
    let* now := time_Now in
    ret (usable (cachedToken p) (tokenExpiry p) expiryBuffer now)
  else ret false.

(** [func (p *STSTokenProvider) GetWebIdentityToken(ctx) (string, error)]. *)
Definition GetWebIdentityToken : ST Sys (string * option error) :=
  let* ok := cacheFresh in
  if ok : bool then
    let* p := get_self in
    ret (cachedToken p, None)
  else
    let* r := stsClient_GetWebIdentityToken in
    match r with
    | inr err =>
        ret ("", Some (Errorf_w "failed to get web identity token from STS: " err))
    | inl output =>
        match WebIdentityToken output with
        | None => ret ("", Some (errorString "STS returned empty token"))
        | Some token =>
            if bool_decide (token = "") then
              ret ("", Some (errorString "STS returned empty token"))
            else
              let* expiry :=
                match Expiration output with
                | Some expiration => ret expiration
                | None =>
                    let* now := time_Now in
                    ret (time.Add now (5 * time.Minute))
                end in
              let* _ := put_self {| cachedToken := token; tokenExpiry := expiry |} in
              ret (token, None)
        end
    end.

End Provider.

End STSTokenProvider.

(** ** Configuration and the extension *)

Record Config : Type := {
  Token : string;
  WorkspaceURL : string;
  SPClientID : string;
  ExpiryBuffer : Z;
}.

Definition Validate (c : Config) : option error :=
  let hasStatic := bool_decide (Token c ≠ "") in
  let hasFed := bool_decide (SPClientID c ≠ "") in
  if negb hasStatic && negb hasFed then
    Some (errorString "either token or sp_client_id must be configured")
  else if hasStatic && hasFed then
    Some (errorString "token and sp_client_id are mutually exclusive")
  else if hasFed && bool_decide (WorkspaceURL c = "") then
    Some (errorString "workspace_url is required when sp_client_id is set")
  else None.

Definition expiryBufferOrDefault (c : Config) : Z :=
  if bool_decide (0 < ExpiryBuffer c) then ExpiryBuffer c else 5 * time.Minute.

(** [Start]: the cache of the extension ([None] in static mode) and the
    error; [newAWSProvider] is the error of the provider's constructor. *)
Definition Start (cfg : Config) (newAWSProvider : option error)
    : option tokenCache * option error :=
  if bool_decide (SPClientID cfg = "") then (None, None)
  else
    match newAWSProvider with
    | Some err => (None, Some (Errorf_w "failed to init AWS provider: " err))
    | None =>
        (Some {| workspaceURL := WorkspaceURL cfg;
                 spClientID := SPClientID cfg;
                 expiryBuffer := expiryBufferOrDefault cfg;
                 cachedToken := "";
                 tokenExpiry := time.zero |},
         None)
    end.

(** ** Requests and their headers ([net/http])

    A request points to its header map, and the header maps live in a
    store, so that a copy of a request and a second pointer to it differ. *)

Module http.

Abbreviation MIMEHeader := (gmap string (list string)) (only parsing).
Abbreviation loc := positive (only parsing).
Abbreviation Store := (gmap positive (gmap string (list string))) (only parsing).

(** A request: where its [Header] map is, and the fields a round trip
    leaves alone. *)
Record Request : Type := {
  Header : loc;
  Rest : string;
}.

(** The header map of a request whose [Header] is initialised, as
    [RoundTrip] requires of its callers. *)
Definition headers (h : Store) (req : Request) : MIMEHeader :=
  default ∅ (h !! Header req).

(** [req.Clone(ctx)]: a new request whose header map is a new map with
    the entries of the old one. *)
Definition Clone (req : Request) : ST Store Request :=
  λ h, let l := fresh (dom h) in
       ({| Header := l; Rest := Rest req |}, <[l := headers h req]> h).

(** [r.Header.Set(key, value)], for a key in canonical form. *)
Definition Header_Set (r : Request) (key value : string) : ST Store unit :=
  λ h, (tt, <[Header r := <[key := [value]]> (headers h r)]> h).

End http.

(** What a round trip works on: the extension's cache ([None] in static
    mode), the header maps, and the requests the base transport was handed,
    each with the headers it had then. *)
Record Process : Type := {
  ext_cache : option Sys;
  store : gmap positive (gmap string (list string));
  handed : list (http.Request * gmap string (list string));
}.

Section RoundTripper.

Context `{ext : Externals} (W : World).

(** The extension's configuration and the base transport, which gets a
    request and its header map and may change that map. *)
Context (cfg : Config).
Context (base : http.Request → gmap string (list string) →
                (Response + error) * gmap string (list string)).

(** [rt.base.RoundTrip(r)]. *)
Definition base_RoundTrip (r : http.Request) : ST Process (Response + error) :=
  λ p, let hdr := http.headers (store p) r in
       let (res, hdr') := base r hdr in
       (res, {| ext_cache := ext_cache p;
                store := <[http.Header r := hdr']> (store p);
                handed := handed p ++ [(r, hdr)] |}).

Definition on_store {A : Type} (m : ST (gmap positive (gmap string (list string))) A)
    : ST Process A :=
  λ p, let (a, h) := m (store p) in
       (a, {| ext_cache := ext_cache p; store := h; handed := handed p |}).

(** [rt.ext.cache.GetToken(req.Context())] on the extension's cache. *)
Definition cache_GetToken (sys : Sys) : ST Process (string * option error) :=
  λ p, let (r, sys') := GetToken W sys in
       (r, {| ext_cache := Some sys'; store := store p; handed := handed p |}).

(** [RoundTrip] of [bearerRoundTripper]: the response or the error. *)
Definition RoundTrip (req : http.Request) : ST Process (Response + error) :=
  let* p := (λ p, (p, p)) in
  let* (token, err) :=
    match ext_cache p with
    | Some sys => cache_GetToken sys
    | None => ret (Token cfg, None)
    end in
  match err with
  | Some err => ret (inr err)
  | None =>
      let* r := on_store (http.Clone req) in
      let* _ := on_store (http.Header_Set r "Authorization" ("Bearer " +:+ token)) in
      base_RoundTrip r
  end.

(** The token [RoundTrip] injects: the one [GetToken] returns, or the
    configured one in static mode. *)
Definition bearer (p : Process) : string * option error :=
  match ext_cache p with
  | Some sys => (GetToken W sys).1
  | None => (Token cfg, None)
  end.

End RoundTripper.

(** ** Concurrent callers of [GetToken]

    Goroutines that run [GetToken] on one cache, interleaved. A step of a
    goroutine is one of the sections of the code that run under a lock
    ([c.mu], or the mutex of the singleflight group) or touch nothing
    shared; the calls of the identity provider and of the HTTP client
    return when the schedule says so, with the answer it gives.

    [sfGroup.Do] is the one of [golang.org/x/sync/singleflight]: under the
    group's mutex, a caller that finds a call registered for the key waits
    for it and returns its results; one that finds none registers a call,
    runs the function, and at the end, under the mutex again, stores the
    results in the call, wakes the waiters and deletes the key. The group
    has the one key ["token"]: [flight] is the call registered under it,
    if any. *)

Module Concurrent.

(** Where the function handed to [sfGroup.Do] stands. *)
Inductive fnpc : Type :=
  | FnCheck                                    (* line 129 *)
  | FnExchange                                 (* line 137, before the call *)
  | FnAwait (req : TokenRequest)               (* line 177, in httpClient.Do *)
  | FnNow (token : string) (expiresIn : Z)     (* line 142 *)
  | FnLock (token : string) (expiry : Z)       (* line 143 *)
  | FnDone (r : string * option error).        (* the function has returned *)

(** How a caller got its result: on the fast path, or from the call of
    that number, which it led or joined. *)
Inductive origin : Type :=
  | FastPath
  | Call (k : nat).

(** Where a goroutine that runs [GetToken] stands. *)
Inductive pc : Type :=
  | AtFastPath                                 (* line 118 *)
  | AtDo                                       (* line 127, before Do *)
  | Waiting (k : nat)                          (* in Do, on c.wg.Wait() *)
  | Leading (k : nat) (at_ : fnpc)             (* in Do, running the function *)
  | Returned (via : origin) (r : string * option error).

(** A call of the group: the cache as it was when the call was created
    (kept for the statements, the code has no such field) and, once the
    call is done, its results. *)
Record call : Type := {
  snapshot : tokenCache;
  result : option (string * option error);
}.

Record State : Type := {
  shared : tokenCache;
  now : Z;
  flight : option nat;
  calls : list call;
  goroutines : list pc;
  started : nat;               (* calls of exchangeToken so far *)
  wire : list TokenRequest;    (* requests handed to httpClient.Do so far *)
}.

Inductive event : Type :=
  | Tick (d : Z)                                  (* time passes *)
  | Run (i : nat)                                 (* goroutine i moves on *)
  | Aws (i : nat) (r : string * option error)     (* i calls exchangeToken; the identity provider answers r *)
  | Http (i : nat) (r : Response + error).        (* httpClient.Do returns r to i *)

Definition goto (i : nat) (p : pc) (σ : State) : State :=
  {| shared := shared σ; now := now σ; flight := flight σ; calls := calls σ;
     goroutines := <[i := p]> (goroutines σ);
     started := started σ; wire := wire σ |}.

Definition later (d : Z) (σ : State) : State :=
  {| shared := shared σ; now := now σ + d; flight := flight σ; calls := calls σ;
     goroutines := goroutines σ; started := started σ; wire := wire σ |}.

(** [g.m[key] = c] for a new call [c]. *)
Definition register (σ : State) : State :=
  {| shared := shared σ; now := now σ;
     flight := Some (length (calls σ));
     calls := calls σ ++ [{| snapshot := shared σ; result := None |}];
     goroutines := goroutines σ; started := started σ; wire := wire σ |}.

(** The end of [doCall]: the results are published and the key is
    deleted if it still maps to this call. *)
Definition publish (k : nat) (r : string * option error) (σ : State) : State :=
  {| shared := shared σ; now := now σ;
     flight := if bool_decide (flight σ = Some k) then None else flight σ;
     calls := alter (λ c, {| snapshot := snapshot c; result := Some r |}) k (calls σ);
     goroutines := goroutines σ; started := started σ; wire := wire σ |}.

Definition write (token : string) (expiry : Z) (σ : State) : State :=
  {| shared := set_cached (shared σ) token expiry; now := now σ;
     flight := flight σ; calls := calls σ;
     goroutines := goroutines σ; started := started σ; wire := wire σ |}.

Definition entering (σ : State) : State :=
  {| shared := shared σ; now := now σ; flight := flight σ; calls := calls σ;
     goroutines := goroutines σ; started := S (started σ); wire := wire σ |}.

Definition posting (req : TokenRequest) (σ : State) : State :=
  {| shared := shared σ; now := now σ; flight := flight σ; calls := calls σ;
     goroutines := goroutines σ; started := started σ; wire := wire σ ++ [req] |}.

(** The test of lines 119 and 130, under the read lock. *)
Definition freshNow (σ : State) : bool :=
  usable (cachedToken (shared σ)) (tokenExpiry (shared σ))
         (expiryBuffer (shared σ)) (now σ).

(** Lines 138-140: what the function returns of a failed exchange. *)
Definition failed (err : error) : string * option error := ("", Some err).

(** Lines 150-153: what [GetToken] returns of the results of [Do]. *)
Definition post (r : string * option error) : string * option error :=
  match r.2 with
  | Some err => ("", Some err)
  | None => (r.1, None)
  end.

Section Step.

Context `{ext : Externals}.

Definition step (e : event) (σ : State) : option State :=
  match e with
  | Tick d => if bool_decide (0 ≤ d) then Some (later d σ) else None
  | Run i =>
      match goroutines σ !! i with
      | Some AtFastPath =>
          if freshNow σ
          then Some (goto i (Returned FastPath (cachedToken (shared σ), None)) σ)
          else Some (goto i AtDo σ)
      | Some AtDo =>
          match flight σ with
          | Some k => Some (goto i (Waiting k) σ)
          | None => Some (goto i (Leading (length (calls σ)) FnCheck) (register σ))
          end
      | Some (Waiting k) =>
          match calls σ !! k with
          | Some {| result := Some r |} => Some (goto i (Returned (Call k) (post r)) σ)
          | _ => None
          end
      | Some (Leading k FnCheck) =>
          if freshNow σ
          then Some (goto i (Leading k (FnDone (cachedToken (shared σ), None))) σ)
          else Some (goto i (Leading k FnExchange) σ)
      | Some (Leading k (FnNow token expiresIn)) =>
          let expiry := time.Add (now σ) (time.mul expiresIn time.Second) in
          Some (goto i (Leading k (FnLock token expiry)) σ)
      | Some (Leading k (FnLock token expiry)) =>
          Some (goto i (Leading k (FnDone (token, None))) (write token expiry σ))
      | Some (Leading k (FnDone r)) =>
          Some (goto i (Returned (Call k) (post r)) (publish k r σ))
      | _ => None
      end
  | Aws i r =>
      match goroutines σ !! i with
      | Some (Leading k FnExchange) =>
          match exchangeStart (shared σ) r with
          | inl err => Some (goto i (Leading k (FnDone (failed err))) (entering σ))
          | inr req => Some (goto i (Leading k (FnAwait req)) (posting req (entering σ)))
          end
      | _ => None
      end
  | Http i r =>
      match goroutines σ !! i with
      | Some (Leading k (FnAwait req)) =>
          match exchangeFinish r with
          | (_, _, Some err) => Some (goto i (Leading k (FnDone (failed err))) σ)
          | (token, expiresIn, None) => Some (goto i (Leading k (FnNow token expiresIn)) σ)
          end
      | _ => None
      end
  end.

Fixpoint run (evs : list event) (σ : State) : option State :=
  match evs with
  | [] => Some σ
  | e :: evs => σ' ← step e σ; run evs σ'
  end.

(** The schedule of one caller on its own in the world [W]: its steps in
    order, the answers [W] gives, and between the steps the time that
    passes from one reading of the clock to the next. *)
Definition solo (W : World) (s : Sys) : list event :=
  if freshAt W s then [Run 0]
  else
    let s1 := missed s in
    [Run 0; Tick (clock W (ticks s1) - clock W (ticks s)); Run 0] ++
    if freshAt W s1 then [Run 0; Run 0]
    else
      let s2 := missed s1 in
      let aws := awsProvider W (awsCalls s) in
      [Run 0; Aws 0 aws] ++
      match exchangeStart (cache s) aws with
      | inl _ => [Run 0]
      | inr req =>
          let r := httpClient_Do W (length (sent s)) req in
          [Http 0 r] ++
          match exchangeFinish r with
          | (_, _, Some _) => [Run 0]
          | (_, _, None) =>
              [Tick (clock W (ticks s2) - clock W (ticks s1)); Run 0; Run 0; Run 0]
          end
      end.

End Step.

(** [n] callers about to run [GetToken] on the cache [c] at the instant
    [t], no call in flight. *)
Definition init (c : tokenCache) (t : Z) (n : nat) : State :=
  {| shared := c; now := t; flight := None; calls := [];
     goroutines := replicate n AtFastPath; started := 0; wire := [] |}.

(** The result of goroutine [i], once it has returned. *)
Definition returned (σ : State) (i : nat) : option (string * option error) :=
  match goroutines σ !! i with
  | Some (Returned _ r) => Some r
  | _ => None
  end.

Definition finished (p : pc) : bool :=
  match p with
  | Returned _ _ => true
  | _ => false
  end.

Definition all_returned (σ : State) : Prop :=
  forallb finished (goroutines σ) = true.

(** *** What holds of every state the callers reach *)

(** The function has not stored a token. *)
Definition unwritten (p : fnpc) : Prop :=
  match p with
  | FnDone (_, None) => False
  | _ => True
  end.

(** The token a goroutine holds as the outcome of a success, if any. *)
Definition holds (p : pc) : option string :=
  match p with
  | Leading _ (FnNow token _) => Some token
  | Leading _ (FnLock token _) => Some token
  | Leading _ (FnDone (token, None)) => Some token
  | Returned _ (token, None) => Some token
  | _ => None
  end.

Record safe (σ : State) : Prop := {
  (** a goroutine that runs the function runs it for the call in flight *)
  safe_leader : ∀ i k p,
    goroutines σ !! i = Some (Leading k p) → flight σ = Some k;
  (** and it is the only one that runs the function *)
  safe_single : ∀ i j k k' p p',
    goroutines σ !! i = Some (Leading k p) →
    goroutines σ !! j = Some (Leading k' p') → i = j;
  (** the call in flight has no results yet *)
  safe_flight : ∀ k,
    flight σ = Some k → ∃ c, calls σ !! k = Some c ∧ result c = None;
  (** who returned from a call returned its results *)
  safe_result : ∀ i k r,
    goroutines σ !! i = Some (Returned (Call k) r) →
    ∃ c r', calls σ !! k = Some c ∧ result c = Some r' ∧ r = post r';
  (** who returned on the fast path returned no error *)
  safe_fast : ∀ i r,
    goroutines σ !! i = Some (Returned FastPath r) → r.2 = None;
  (** until the function stores a token the cache is as the call found it *)
  safe_snapshot : ∀ i k p,
    goroutines σ !! i = Some (Leading k p) → unwritten p →
    ∃ c, calls σ !! k = Some c ∧ snapshot c = shared σ;
  (** tokens held as successes are not empty *)
  safe_holds : ∀ i p token,
    goroutines σ !! i = Some p → holds p = Some token → token ≠ "";
  safe_published : ∀ k c token,
    calls σ !! k = Some c → result c = Some (token, None) → token ≠ "";
}.

(** *** Runs in which every exchange succeeds *)

(** The time that passes in a schedule. *)
Definition elapsed (evs : list event) : Z :=
  foldr (λ e acc, match e with Tick d => d + acc | _ => acc end) 0 evs.

Section Healthy.

Context `{ext : Externals}.

(** The identity provider and the endpoint answer well: every exchange
    of the cache [c0] yields [token] for [expiresIn] seconds. *)
Definition healthy (c0 : tokenCache) (token : string) (expiresIn : Z)
    (e : event) : Prop :=
  match e with
  | Aws _ r => ∃ req, exchangeStart c0 r = inr req
  | Http _ r => exchangeFinish r = (token, expiresIn, None)
  | _ => True
  end.

(** Before the token is stored: the cache is [c0], nobody has returned,
    and [exchangeToken] was called once the leader is past the call. *)
Definition before_pc (t0 : Z) (token : string) (expiresIn : Z) (n : nat)
    (p : pc) : Prop :=
  match p with
  | AtFastPath | AtDo | Waiting _ => True
  | Leading _ FnCheck | Leading _ FnExchange => n = 0%nat
  | Leading _ (FnAwait _) => n = 1%nat
  | Leading _ (FnNow tok ttl) => n = 1%nat ∧ tok = token ∧ ttl = expiresIn
  | Leading _ (FnLock tok expiry) =>
      n = 1%nat ∧ tok = token ∧
      t0 + time.mul expiresIn time.Second ≤ expiry
  | Leading _ (FnDone _) | Returned _ _ => False
  end.

(** After: whoever holds a result holds the token. *)
Definition after_pc (token : string) (p : pc) : Prop :=
  match p with
  | AtFastPath | AtDo | Waiting _ | Leading _ FnCheck => True
  | Leading _ (FnDone r) | Returned _ r => r = (token, None)
  | Leading _ _ => False
  end.

Definition before (c0 : tokenCache) (t0 : Z) (token : string) (expiresIn : Z)
    (σ : State) : Prop :=
  shared σ = c0 ∧
  (started σ ≤ 1)%nat ∧
  length (wire σ) = started σ ∧
  (flight σ = None → started σ = 0%nat) ∧
  (∀ k c, calls σ !! k = Some c → result c = None) ∧
  ∀ i p, goroutines σ !! i = Some p → before_pc t0 token expiresIn (started σ) p.

Definition after (c0 : tokenCache) (t0 : Z) (token : string) (expiresIn : Z)
    (σ : State) : Prop :=
  token ≠ "" ∧
  (∃ expiry, t0 + time.mul expiresIn time.Second ≤ expiry ∧
             shared σ = set_cached c0 token expiry) ∧
  started σ = 1%nat ∧
  length (wire σ) = 1%nat ∧
  (∀ k c r, calls σ !! k = Some c → result c = Some r → r = (token, None)) ∧
  ∀ i p, goroutines σ !! i = Some p → after_pc token p.

(** The instant [t] is one at which a token stored at [t0] or later
    for [expiresIn] seconds passes the test of the cache [c0]. *)
Definition in_time (c0 : tokenCache) (t0 : Z) (expiresIn : Z) (t : Z) : Prop :=
  t < t0 + time.mul expiresIn time.Second + time.neg (expiryBuffer c0).

Definition steady (c0 : tokenCache) (t0 : Z) (token : string) (expiresIn : Z)
    (σ : State) : Prop :=
  safe σ ∧ t0 ≤ now σ ∧
  (before c0 t0 token expiresIn σ ∨ after c0 t0 token expiresIn σ).

End Healthy.

End Concurrent.

(** ** The factory and the life of the extension *)

(** [createDefaultConfig]: the zero [Config]. *)
Definition createDefaultConfig : Config :=
  {| Token := ""; WorkspaceURL := ""; SPClientID := ""; ExpiryBuffer := 0 |}.

(** The extension: its configuration and its cache, nil in static mode. *)
Record databricksAuthExtension : Type := {
  e_cfg : Config;
  e_cache : option tokenCache;
}.

(** [createExtension]: the extension of a configuration, not started. *)
Definition createExtension (c : Config) : databricksAuthExtension :=
  {| e_cfg := c; e_cache := None |}.

(** [NewSTSTokenProvider]: the provider, with nothing cached, or the error
    of [awsconfig.LoadDefaultConfig], wrapped. *)
Definition NewSTSTokenProvider (load : option error)
    : option STSTokenProvider.t * option error :=
  match load with
  | Some err => (None, Some (Errorf_w "failed to load AWS config: " err))
  | None =>
      (Some {| STSTokenProvider.cachedToken := "";
               STSTokenProvider.tokenExpiry := time.zero |},
       None)
  end.

(** The variable [newAWSProvider] as the program sets it: the error of
    [NewSTSTokenProvider]. *)
Definition newAWSProvider (load : option error) : option error :=
  (NewSTSTokenProvider load).2.

(** [Start] on the extension: [e.cache] is assigned when [Start] builds a
    cache and left alone otherwise. *)
Definition Extension_Start (e : databricksAuthExtension) (load : option error)
    : databricksAuthExtension * option error :=
  let (c, err) := Start (e_cfg e) (newAWSProvider load) in
  ({| e_cfg := e_cfg e;
      e_cache := match c with Some c => Some c | None => e_cache e end |},
   err).

(** [Shutdown]. *)
Definition Shutdown (e : databricksAuthExtension) : option error := None.

(** A cache that has asked nothing of the world yet. *)
Definition boot (c : tokenCache) : Sys :=
  {| cache := c; ticks := 0; awsCalls := 0; sent := [] |}.

(** The process of an extension whose round tripper has handed nothing to
    the base transport yet, over the header maps [h]. *)
Definition serving (e : databricksAuthExtension)
    (h : gmap positive (gmap string (list string))) : Process :=
  {| ext_cache := boot <$> e_cache e; store := h; handed := [] |}.

Section Calls.

Context `{ext : Externals} (W : World).

(** [n] calls of [GetToken], one after the other. *)
Fixpoint GetTokens (n : nat) : M (list (string * option error)) :=
  match n with
  | O => ret []
  | S n =>
      let* r := GetToken W in
      let* rs := GetTokens n in
      ret (r :: rs)
  end.

End Calls.

(** *** More of what holds of every state concurrent callers reach *)

(** The configuration of the cache is the one it started with; a cached
    token other than the one it started with is not empty; every request
    handed to the HTTP client is the exchange request of the cache, and
    there are no more of them than calls of [exchangeToken]. *)
Definition wired (c0 : tokenCache) (σ : Concurrent.State) : Prop :=
  workspaceURL (Concurrent.shared σ) = workspaceURL c0 ∧
  spClientID (Concurrent.shared σ) = spClientID c0 ∧
  expiryBuffer (Concurrent.shared σ) = expiryBuffer c0 ∧
  (Concurrent.shared σ = c0 ∨ cachedToken (Concurrent.shared σ) ≠ "") ∧
  (length (Concurrent.wire σ) ≤ Concurrent.started σ)%nat ∧
  Forall (λ req, ∃ awsToken, req = exchangeRequest c0 awsToken) (Concurrent.wire σ).

(** The call in flight has a leader, and a waiter waits for a call that is
    done or in flight. *)
Definition live (σ : Concurrent.State) : Prop :=
  (∀ k, Concurrent.flight σ = Some k →
        ∃ j p, Concurrent.goroutines σ !! j = Some (Concurrent.Leading k p)) ∧
  (∀ i k, Concurrent.goroutines σ !! i = Some (Concurrent.Waiting k) →
          ∃ c, Concurrent.calls σ !! k = Some c ∧
               (is_Some (Concurrent.result c) ∨ Concurrent.flight σ = Some k)).

(** A goroutine can take a step: by itself, or on an answer of the
    identity provider or of the endpoint. *)
Definition can_move `{ext : Externals} (σ : Concurrent.State) (i : nat) : Prop :=
  is_Some (Concurrent.step (Concurrent.Run i) σ) ∨
  (∀ r, is_Some (Concurrent.step (Concurrent.Aws i r) σ)) ∨
  (∀ r, is_Some (Concurrent.step (Concurrent.Http i r) σ)).

(** *** Failed attempts and expired credentials *)

(** An answer of the HTTP client of which [exchangeToken] makes an error:
    the transport failed, the body could not be read, the status is not
    200, the body does not decode, or it carries no token. *)
Definition failing `{ext : Externals} (r : Response + error) : Prop :=
  match r with
  | inr _ => True
  | inl resp =>
      (Body resp).2 ≠ None ∨
      StatusCode resp ≠ StatusOK ∨
      (json_Unmarshal_token (Body resp).1).2 ≠ None ∨
      AccessToken (json_Unmarshal_token (Body resp).1).1 = ""
  end.

(** The refresh attempt made from state [s] fails: the identity provider
    returns an error, or the request cannot be built, or the answer of the
    HTTP client is a failing one. *)
Definition attempt_fails `{ext : Externals} (W : World) (s : Sys) : Prop :=
  match awsProvider W (awsCalls s) with
  | (_, Some _) => True
  | (awsToken, None) =>
      let req := exchangeRequest (cache s) awsToken in
      http_NewRequest (Method req) (URL req) ≠ None ∨
      failing (httpClient_Do W (length (sent s)) req)
  end.

(** From [σ], the event [e] makes the exchange of caller [i], who leads
    call [k], fail with [err]: after [e] and the next step of [i], the
    cache is as in [σ], [i] has returned the error with no token, and each
    caller waiting for call [k] in [σ] returns the same, the cache still as
    in [σ], at its next step. *)
Definition propagated `{ext : Externals} (σ : Concurrent.State)
    (e : Concurrent.event) (i k : nat) (err : error) : Prop :=
  ∃ σ',
    Concurrent.run [e; Concurrent.Run i] σ = Some σ' ∧
    Concurrent.shared σ' = Concurrent.shared σ ∧
    Concurrent.returned σ' i = Some ("", Some err) ∧
    (∃ c, Concurrent.calls σ' !! k = Some c ∧
          Concurrent.result c = Some ("", Some err)) ∧
    ∀ j, Concurrent.goroutines σ !! j = Some (Concurrent.Waiting k) →
         ∃ σ'',
           Concurrent.step (Concurrent.Run j) σ' = Some σ'' ∧
           Concurrent.shared σ'' = Concurrent.shared σ ∧
           Concurrent.returned σ'' j = Some ("", Some err).

(** Call [k] is not complete in [σ]: it is not registered yet, or it has
    no results. *)
Definition pending (σ : Concurrent.State) (k : nat) : Prop :=
  ∀ c, Concurrent.calls σ !! k = Some c → Concurrent.result c = None.

(** Where a caller can be that has missed the fast path in [σ]: before
    [Do], or in a call that was not complete in [σ]. *)
Definition cleared (σ : Concurrent.State) (p : Concurrent.pc) : Prop :=
  match p with
  | Concurrent.AtDo => True
  | Concurrent.Waiting k
  | Concurrent.Leading k _
  | Concurrent.Returned (Concurrent.Call k) _ => pending σ k
  | _ => False
  end.

(** The steps a caller can still take, at most: eight from the fast path
    to the return through the whole function, one for a waiter. *)
Definition rank (p : Concurrent.pc) : nat :=
  match p with
  | Concurrent.AtFastPath => 8
  | Concurrent.AtDo => 7
  | Concurrent.Leading _ Concurrent.FnCheck => 6
  | Concurrent.Leading _ Concurrent.FnExchange => 5
  | Concurrent.Leading _ (Concurrent.FnAwait _) => 4
  | Concurrent.Leading _ (Concurrent.FnNow _ _) => 3
  | Concurrent.Leading _ (Concurrent.FnLock _ _) => 2
  | Concurrent.Leading _ (Concurrent.FnDone _) => 1
  | Concurrent.Waiting _ => 1
  | Concurrent.Returned _ _ => 0
  end.

Definition work (σ : Concurrent.State) : nat :=
  sum_list (rank <$> Concurrent.goroutines σ).

(** The steps of callers in a schedule: its events but the passing of
    time. *)
Fixpoint moves (evs : list Concurrent.event) : nat :=
  match evs with
  | [] => 0
  | Concurrent.Tick _ :: evs => moves evs
  | _ :: evs => S (moves evs)
  end.

(** ** Sample worlds: the scenarios of the tests *)

Module Sample.

Definition okBody : string := "{access_token: fresh, expires_in: 3600}".
Definition zeroTTLBody : string := "{access_token: tok, expires_in: 0}".
Definition noTokenBody : string := "{token_type: Bearer}".
Definition malformedBody : string := "not-json{{{".
Definition errorBody : string :=
  "{error: invalid_client, error_description: bad credentials}".

Definition syntaxError : error := errorString "invalid character".

(** A decoder for the bodies above; every other body is a syntax error. *)
Definition decode_token (body : string) : tokenExchangeResponse * option error :=
  if bool_decide (body = okBody) then
    ({| AccessToken := "fresh"; TokenType := ""; ExpiresIn := 3600 |}, None)
  else if bool_decide (body = zeroTTLBody) then
    ({| AccessToken := "tok"; TokenType := ""; ExpiresIn := 0 |}, None)
  else if bool_decide (body = noTokenBody) || bool_decide (body = errorBody) then
    ({| AccessToken := ""; TokenType := ""; ExpiresIn := 0 |}, None)
  else ({| AccessToken := ""; TokenType := ""; ExpiresIn := 0 |}, Some syntaxError).

Definition decode_error (body : string) : tokenExchangeErrorResponse * option error :=
  if bool_decide (body = errorBody) then
    ({| Error_ := "invalid_client"; ErrorDescription := "bad credentials" |}, None)
  else if bool_decide (body = okBody) || bool_decide (body = zeroTTLBody)
          || bool_decide (body = noTokenBody) then
    ({| Error_ := ""; ErrorDescription := "" |}, None)
  else ({| Error_ := ""; ErrorDescription := "" |}, Some syntaxError).

Definition externals : Externals :=
  {| json_Unmarshal_token := decode_token;
     json_Unmarshal_error := decode_error;
     http_NewRequest := λ _ _, None |}.

(** The instant the scenarios start at. *)
Definition t0 : Z := 1700000000 * time.Second.

(** A world whose clock advances by a millisecond per reading, whose
    identity provider answers [aws] and whose endpoint answers [resp]. *)
Definition world (aws : string * option error) (resp : Response + error) : World :=
  {| clock := λ n, t0 + Z.of_nat n * time.Millisecond;
     awsProvider := λ _, aws;
     httpClient_Do := λ _ _, resp |}.

Definition reply (status : Z) (body : string) : Response + error :=
  inl {| StatusCode := status; Body := (body, None) |}.

Definition granting : World := world ("aws-token", None) (reply 200 okBody).

Definition newTestTokenCache (token : string) (expiry : Z) : tokenCache :=
  {| workspaceURL := "https://adb-123.cloud.databricks.com";
     spClientID := "test-client-id";
     expiryBuffer := 5 * time.Minute;
     cachedToken := token;
     tokenExpiry := expiry |}.

Definition cold : tokenCache := newTestTokenCache "" 0.
Definition stale : tokenCache := newTestTokenCache "stale" (t0 - time.Hour).
Definition warm : tokenCache := newTestTokenCache "tok-abc" (t0 + time.Hour).

Definition start (c : tokenCache) : Sys :=
  {| cache := c; ticks := 0; awsCalls := 0; sent := [] |}.

(** The endpoint's answers in the tests of the failures. *)
Definition refusing : World := world ("aws-token", None) (reply 401 errorBody).
Definition throttling : World := world ("aws-token", None) (reply 429 "").
Definition tokenless : World := world ("aws-token", None) (reply 200 noTokenBody).
Definition zeroTTL : World := world ("aws-token", None) (reply 200 zeroTTLBody).

(** An STS that gives a token with no expiration, and a provider that
    has cached nothing. *)
Definition stsWorld : STSTokenProvider.World :=
  {| STSTokenProvider.clock := λ n, t0 + Z.of_nat n * time.Millisecond;
     STSTokenProvider.stsClient := λ _,
       inl {| STSTokenProvider.WebIdentityToken := Some "aws-token";
              STSTokenProvider.Expiration := None |} |}.

Definition newProvider : STSTokenProvider.Sys :=
  {| STSTokenProvider.self :=
       {| STSTokenProvider.cachedToken := "";
          STSTokenProvider.tokenExpiry := time.zero |};
     STSTokenProvider.ticks := 0;
     STSTokenProvider.stsCalls := 0 |}.

(** The round trip of the test of the original request: static mode,
    one header on the request, a transport that answers 200. *)
Definition staticConfig : Config :=
  {| Token := "tok"; WorkspaceURL := ""; SPClientID := ""; ExpiryBuffer := 0 |}.

Definition transport (r : http.Request) (hdr : gmap string (list string))
    : (Response + error) * gmap string (list string) :=
  (reply 200 "", hdr).

Definition orig : http.Request := {| http.Header := 1%positive; http.Rest := "GET /" |}.

Definition staticProcess : Process :=
  {| ext_cache := None;
     store := {[ 1%positive := {[ "X-Custom" := ["original"] ]} ]};
     handed := [] |}.

(** Two callers of a cold cache. The second has left the fast path
    and not yet called [Do] while the first leads a call, whose exchange
    the endpoint refuses; the second then leads a call of its own. *)
Definition refusedRace : list Concurrent.event :=
  [Concurrent.Run 0; Concurrent.Run 1;
   Concurrent.Run 0; Concurrent.Run 0;
   Concurrent.Aws 0 ("aws-token", None);
   Concurrent.Http 0 (reply 401 errorBody);
   Concurrent.Run 0;
   Concurrent.Run 1; Concurrent.Run 1;
   Concurrent.Aws 1 ("aws-token", None);
   Concurrent.Http 1 (reply 200 okBody);
   Concurrent.Run 1; Concurrent.Run 1; Concurrent.Run 1].

Definition refusedRaceEnd : Concurrent.State :=
  Eval vm_compute in
    default (Concurrent.init cold t0 2)
      (Concurrent.run (ext := externals) refusedRace (Concurrent.init cold t0 2)).

(** Three callers of a cold cache: the second joins the call of the
    first, the third arrives while the exchange is in flight and joins
    it too. *)
Definition sharedRace : list Concurrent.event :=
  [Concurrent.Run 0; Concurrent.Run 1;
   Concurrent.Run 0; Concurrent.Run 1; Concurrent.Run 0;
   Concurrent.Aws 0 ("aws-token", None);
   Concurrent.Tick (20 * time.Millisecond);
   Concurrent.Run 2; Concurrent.Run 2;
   Concurrent.Http 0 (reply 200 okBody);
   Concurrent.Run 0; Concurrent.Run 0; Concurrent.Run 0;
   Concurrent.Run 1; Concurrent.Run 2].

Definition sharedRaceEnd : Concurrent.State :=
  Eval vm_compute in
    default (Concurrent.init cold t0 3)
      (Concurrent.run (ext := externals) sharedRace (Concurrent.init cold t0 3)).

(** Two callers whose shared exchange the endpoint refuses. *)
Definition failedRace : list Concurrent.event :=
  [Concurrent.Run 0; Concurrent.Run 0; Concurrent.Run 1; Concurrent.Run 1;
   Concurrent.Run 0;
   Concurrent.Aws 0 ("aws-token", None);
   Concurrent.Http 0 (reply 401 errorBody);
   Concurrent.Run 0; Concurrent.Run 1].

(** The identity provider and the server of the tests of their failure. *)
Definition awsCredError : World :=
  world ("", Some (errorString "aws cred error")) (reply 200 okBody).
Definition unreachable : World :=
  world ("aws-token", None) (inr (errorString "connection refused")).

(** An endpoint whose tokens live no longer than the buffer of the cache,
    and one whose [expires_in] is past what a [Duration] holds. *)
Definition fiveMinuteBody : string := "{access_token: brief, expires_in: 300}".
Definition threeCenturiesBody : string :=
  "{access_token: long, expires_in: 9999999999}".

Definition decode_more (body : string) : tokenExchangeResponse * option error :=
  if bool_decide (body = fiveMinuteBody) then
    ({| AccessToken := "brief"; TokenType := ""; ExpiresIn := 300 |}, None)
  else if bool_decide (body = threeCenturiesBody) then
    ({| AccessToken := "long"; TokenType := ""; ExpiresIn := 9999999999 |}, None)
  else decode_token body.

Definition externals_more : Externals :=
  {| json_Unmarshal_token := decode_more;
     json_Unmarshal_error := decode_error;
     http_NewRequest := λ _ _, None |}.

Definition brief : World := world ("aws-token", None) (reply 200 fiveMinuteBody).
Definition centuries : World := world ("aws-token", None) (reply 200 threeCenturiesBody).

(** Three callers of an expired cache. The second refreshes it; the first,
    who had missed the fast path before, leads a call of its own, whose
    test finds the new token usable. Two hours pass before it publishes
    the result: the token has expired when the third caller arrives, misses
    the fast path and joins that call. *)
Definition lateJoinStart : list Concurrent.event :=
  [Concurrent.Run 0;
   Concurrent.Run 1; Concurrent.Run 1; Concurrent.Run 1;
   Concurrent.Aws 1 ("aws-token", None);
   Concurrent.Http 1 (reply 200 okBody);
   Concurrent.Run 1; Concurrent.Run 1; Concurrent.Run 1;
   Concurrent.Run 0; Concurrent.Run 0;
   Concurrent.Tick (2 * time.Hour)].

Definition lateJoinRest : list Concurrent.event :=
  [Concurrent.Run 2; Concurrent.Run 0; Concurrent.Run 2].

Definition lateJoinMid : Concurrent.State :=
  Eval vm_compute in
    default (Concurrent.init stale t0 3)
      (Concurrent.run (ext := externals) lateJoinStart (Concurrent.init stale t0 3)).

Definition lateJoinEnd : Concurrent.State :=
  Eval vm_compute in
    default lateJoinMid
      (Concurrent.run (ext := externals) (Concurrent.Run 2 :: lateJoinRest) lateJoinMid).

(** The state of [failedRace] in which the first caller awaits the
    answer of the endpoint and the second waits for the call. *)
Definition failedRaceMid : Concurrent.State :=
  Eval vm_compute in
    default (Concurrent.init stale t0 2)
      (Concurrent.run (ext := externals) (take 6 failedRace)
         (Concurrent.init stale t0 2)).

Definition failedRaceEnd : Concurrent.State :=
  Eval vm_compute in
    default (Concurrent.init stale t0 2)
      (Concurrent.run (ext := externals) failedRace (Concurrent.init stale t0 2)).

End Sample.

(** * Properties *)

(** ** Durations *)

Lemma wrap64_small z : time.min_int64 ≤ z ≤ time.max_int64 → time.wrap64 z = z.
Proof.
  unfold time.wrap64, time.min_int64, time.max_int64. intros Hz.
  rewrite Z.mod_small by lia. lia.
Qed.

Lemma neg_exact d : time.min_int64 < d ≤ time.max_int64 → time.neg d = - d.
Proof.
  unfold time.neg. intros Hd. apply wrap64_small.
  unfold time.min_int64, time.max_int64 in *. lia.
Qed.

Lemma usable_true token expiry buffer now :
  usable token expiry buffer now = true ↔
  token ≠ "" ∧ now < expiry + time.neg buffer.
Proof.
  unfold usable, time.Before, time.Add.
  rewrite andb_true_iff, !bool_decide_eq_true. done.
Qed.

Lemma usable_later token expiry buffer now now' :
  now ≤ now' → usable token expiry buffer now = false →
  usable token expiry buffer now' = false.
Proof.
  intros Hle Hf. apply not_true_is_false. intros Ht.
  apply usable_true in Ht as [Hne Hlt].
  assert (usable token expiry buffer now = true) as Hc
    by (apply usable_true; split; [done | lia]).
  congruence.
Qed.

(** ** The cache, one caller at a time *)

Section CacheFacts.

Context `{ext : Externals} (W : World).

Lemma cache_missed s : cache (missed s) = cache s.
Proof. unfold missed. by case_bool_decide. Qed.

Lemma awsCalls_missed s : awsCalls (missed s) = awsCalls s.
Proof. unfold missed. by case_bool_decide. Qed.

Lemma sent_missed s : sent (missed s) = sent s.
Proof. unfold missed. by case_bool_decide. Qed.

Lemma ticks_missed s : (ticks s ≤ ticks (missed s) ≤ S (ticks s))%nat.
Proof. unfold missed. case_bool_decide; simpl; lia. Qed.

Lemma fastPath_eq s :
  fastPath W s =
    if freshAt W s then (Some (cachedToken (cache s)), ticked s)
    else (None, missed s).
Proof.
  unfold fastPath, cacheFresh, freshAt, missed, bind, ret, get_cache, time_Now, usable.
  simpl. case_bool_decide; simpl; [|done].
  by destruct (time.Before _ _).
Qed.

Lemma exchangeToken_frame s :
  cache (exchangeToken W s).2 = cache s ∧
  ticks (exchangeToken W s).2 = ticks s ∧
  awsCalls (exchangeToken W s).2 = S (awsCalls s).
Proof.
  unfold exchangeToken, bind, ret, get_cache, awsProvider_GetWebIdentityToken,
    httpClient_do. simpl.
  destruct (awsProvider W (awsCalls s)) as [awsToken [err|]]; simpl; [done|].
  destruct (http_NewRequest _ _); simpl; [done|].
  by destruct (httpClient_Do W _ _).
Qed.

Lemma refresh_eq s :
  refresh W s =
    if freshAt W s then ((cachedToken (cache s), None), ticked s)
    else
      match exchangeToken W (missed s) with
      | ((_, _, Some err), s') => (("", Some err), s')
      | ((token, expiresIn, None), s') => ((token, None), stored W token expiresIn s')
      end.
Proof.
  unfold refresh, bind. rewrite fastPath_eq.
  destruct (freshAt W s); [done|].
  destruct (exchangeToken W (missed s)) as [[[token expiresIn] [err|]] s']; done.
Qed.

Lemma GetToken_eq s :
  GetToken W s =
    if freshAt W s then ((cachedToken (cache s), None), ticked s)
    else if freshAt W (missed s)
    then ((cachedToken (cache s), None), ticked (missed s))
    else
      match exchangeToken W (missed (missed s)) with
      | ((_, _, Some err), s') => (("", Some err), s')
      | ((token, expiresIn, None), s') => ((token, None), stored W token expiresIn s')
      end.
Proof.
  unfold GetToken, slowPath, sfGroup_Do, bind. rewrite fastPath_eq.
  destruct (freshAt W s); [done|].
  rewrite refresh_eq, cache_missed.
  destruct (freshAt W (missed s)); [done|].
  destruct (exchangeToken W (missed (missed s))) as [[[token expiresIn] [err|]] s']; done.
Qed.

(** With a clock that does not run backwards, a cache that is stale at
    the fast path is stale at the second test too. *)
Lemma freshAt_missed s :
  clock W (ticks s) ≤ clock W (S (ticks s)) →
  freshAt W s = false → freshAt W (missed s) = false.
Proof.
  intros Hmono Hs. unfold freshAt in *. rewrite cache_missed.
  unfold missed. case_bool_decide as Hne; simpl.
  - by eapply usable_later.
  - unfold usable. case_bool_decide; done.
Qed.

(** [exchangeToken] is its two halves, one after the other. *)
Lemma exchangeToken_halves s :
  exchangeToken W s =
    match exchangeStart (cache s) (awsProvider W (awsCalls s)) with
    | inl err => (("", 0, Some err), asked s)
    | inr req =>
        (exchangeFinish (httpClient_Do W (length (sent s)) req), sending req (asked s))
    end.
Proof.
  unfold exchangeToken, exchangeStart, exchangeFinish, bind, ret, get_cache,
    awsProvider_GetWebIdentityToken, httpClient_do. simpl.
  destruct (awsProvider W (awsCalls s)) as [awsToken [err|]]; simpl; [done|].
  destruct (http_NewRequest _ _); simpl; [done|].
  by destruct (httpClient_Do W _ _).
Qed.

End CacheFacts.

Section CacheClaims.

Context `{ext : Externals} (W : World).

Lemma exchangeToken_answered s resp :
  answered W s resp →
  ∃ s', exchangeToken W s = (readResponse resp, s') ∧ cache s' = cache s.
Proof.
  intros (awsToken & Haws & Hreq & Hdo).
  unfold exchangeToken, bind, ret, get_cache, awsProvider_GetWebIdentityToken,
    httpClient_do. simpl in *.
  rewrite Haws. simpl. rewrite Hreq. simpl. rewrite Hdo. eauto.
Qed.

(** A refresh that finds the cache stale twice and whose exchange is
    answered by [resp] ends as [readResponse resp] says. *)
Lemma GetToken_answered s resp :
  freshAt W s = false → freshAt W (missed s) = false →
  answered W (missed (missed s)) resp →
  ∃ s', exchangeToken W (missed (missed s)) = (readResponse resp, s') ∧
    cache s' = cache s ∧
    GetToken W s =
      match readResponse resp with
      | (_, _, Some err) => (("", Some err), s')
      | (token, expiresIn, None) => ((token, None), stored W token expiresIn s')
      end.
Proof.
  intros H1 H2 Hans. destruct (exchangeToken_answered _ _ Hans) as (s' & Hex & Hc).
  exists s'. split; [done|]. split; [by rewrite Hc, !cache_missed|].
  rewrite GetToken_eq, H1, H2, Hex.
  by destruct (readResponse resp) as [[token expiresIn] [err|]].
Qed.

(** C2. The fast path returns the cached token exactly when the token is
    not empty and [now < expiresAt - expiryBuffer], [now] being the clock
    reading of the test; [GetToken] then returns it and asks nothing of
    the identity provider or the endpoint. Otherwise the fast path
    returns nothing and [GetToken] continues with the slow path, which,
    the clock not running backwards, calls [exchangeToken]. *)
Theorem fast_path_iff_usable (s : Sys) :
  time.min_int64 < expiryBuffer (cache s) ≤ time.max_int64 →
  let c := cache s in
  let now := clock W (ticks s) in
  let good := cachedToken c ≠ "" ∧ now < tokenExpiry c - expiryBuffer c in
  (∀ token, (fastPath W s).1 = Some token ↔ good ∧ token = cachedToken c) ∧
  (good →
     GetToken W s = ((cachedToken c, None), ticked s) ∧
     awsCalls (GetToken W s).2 = awsCalls s ∧ sent (GetToken W s).2 = sent s) ∧
  (¬ good →
     (fastPath W s).1 = None ∧
     GetToken W s = slowPath W (missed s) ∧
     (clock W (ticks s) ≤ clock W (S (ticks s)) →
      awsCalls (GetToken W s).2 = S (awsCalls s))).
Proof.
  intros Hbuf c now good.
  assert (freshAt W s = true ↔ good) as Hfresh.
  { unfold freshAt, good. rewrite usable_true, neg_exact by done.
    subst c now. split; intros [? ?]; split; try done; lia. }
  split; [|split].
  - intros token. rewrite fastPath_eq.
    destruct (freshAt W s) eqn:Hf; simpl.
    + split.
      * intros [= <-]. split; [by apply Hfresh | done].
      * by intros [_ ->].
    + split; [done|]. intros [Hu _]. apply Hfresh in Hu. done.
  - intros Hu. apply Hfresh in Hu. rewrite GetToken_eq, Hu. done.
  - intros Hnu.
    assert (freshAt W s = false) as Hf.
    { apply not_true_is_false. intros Hf. by apply Hnu, Hfresh. }
    split; [by rewrite fastPath_eq, Hf|]. split.
    + unfold GetToken, bind. by rewrite fastPath_eq, Hf.
    + intros Hmono. rewrite GetToken_eq, Hf, freshAt_missed by done.
      pose proof (exchangeToken_frame W (missed (missed s))) as (_ & _ & Haws).
      rewrite !awsCalls_missed in Haws.
      destruct (exchangeToken W (missed (missed s)))
        as [[[token expiresIn] [err|]] s']; done.
Qed.

(** The buffer of a cache that [Start] builds is a positive duration, and
    [GetToken] leaves it as it is. *)
Lemma Start_buffer cfg c :
  ExpiryBuffer cfg ≤ time.max_int64 →
  Start cfg None = (Some c, None) →
  0 < expiryBuffer c ≤ time.max_int64.
Proof.
  unfold Start. case_bool_decide; [done|]. intros Hmax [= <-]. simpl.
  unfold expiryBufferOrDefault. case_bool_decide; [lia|].
  unfold time.max_int64. by vm_compute.
Qed.

Lemma GetToken_buffer s :
  expiryBuffer (cache (GetToken W s).2) = expiryBuffer (cache s).
Proof.
  rewrite GetToken_eq.
  destruct (freshAt W s); [done|].
  destruct (freshAt W (missed s)); [simpl; by rewrite cache_missed|].
  pose proof (exchangeToken_frame W (missed (missed s))) as (Hc & _ & _).
  rewrite !cache_missed in Hc.
  destruct (exchangeToken W (missed (missed s))) as [[[token expiresIn] [err|]] s'];
    simpl in *; by rewrite Hc.
Qed.

(** One caller at a time. Once the clock has reached the cached token's
    expiry, neither test of the cache passes, [exchangeToken] is called,
    and what the caller gets is what that exchange produced. *)
Lemma expired_token_exchanged (s : Sys) :
  0 ≤ expiryBuffer (cache s) ≤ time.max_int64 →
  tokenExpiry (cache s) ≤ clock W (ticks s) →
  clock W (ticks s) ≤ clock W (S (ticks s)) →
  (fastPath W s).1 = None ∧
  (fastPath W (missed s)).1 = None ∧
  awsCalls (GetToken W s).2 = S (awsCalls s) ∧
  (GetToken W s).1 =
    match (exchangeToken W (missed (missed s))).1 with
    | (_, _, Some err) => ("", Some err)
    | (token, _, None) => (token, None)
    end.
Proof.
  intros Hbuf Hexp Hmono.
  assert (freshAt W s = false) as Hf.
  { apply not_true_is_false. unfold freshAt. rewrite usable_true, neg_exact.
    - intros [_ Hlt]. lia.
    - unfold time.min_int64. lia. }
  pose proof (freshAt_missed W s Hmono Hf) as Hf'.
  rewrite !fastPath_eq, GetToken_eq, Hf, Hf'.
  split; [done|]. split; [done|].
  pose proof (exchangeToken_frame W (missed (missed s))) as (_ & _ & Haws).
  rewrite !awsCalls_missed in Haws.
  destruct (exchangeToken W (missed (missed s)))
    as [[[token expiresIn] [err|]] s']; done.
Qed.

(** C5. On a status other than 200, with the body read: when the body
    decodes as an error response whose [error] field is not empty, the
    exchange fails with the message made of both fields; otherwise it
    fails with the message that carries the status code. *)
Theorem non_success_status_error (s : Sys) (resp : Response) (body : string) :
  answered W s resp →
  Body resp = (body, None) →
  StatusCode resp ≠ StatusOK →
  let errResp := (json_Unmarshal_error body).1 in
  let present := (json_Unmarshal_error body).2 = None ∧ Error_ errResp ≠ "" in
  (present →
     (exchangeToken W s).1 =
       ("", 0, Some (errorString ("token exchange failed (" +:+ Error_ errResp
                                    +:+ "): " +:+ ErrorDescription errResp)))) ∧
  (¬ present →
     (exchangeToken W s).1 =
       ("", 0, Some (errorString ("token exchange failed with status "
                                    +:+ pretty (StatusCode resp))))).
Proof.
  intros Hans Hbody Hstatus errResp present.
  destruct (exchangeToken_answered _ _ Hans) as (s' & -> & _). simpl.
  unfold readResponse. rewrite Hbody, bool_decide_eq_true_2 by done.
  subst errResp present.
  destruct (json_Unmarshal_error body) as [errResp uerr]. simpl.
  split.
  - intros [-> Hne]. by rewrite !bool_decide_eq_true_2.
  - intros Hnp. destruct uerr as [e|]; [done|].
    rewrite (bool_decide_eq_false_2 (Error_ errResp ≠ "")); [done|].
    intros Hne. by apply Hnp.
Qed.

(** C6. A response with a status from 200 to 299, whose body was read
    and either does not decode or decodes with an empty [access_token],
    makes the exchange fail; a [GetToken] that got there returns that
    error with no token and leaves the cache as it was. *)
Theorem success_without_token_fails (s : Sys) (resp : Response) (body : string) :
  freshAt W s = false → freshAt W (missed s) = false →
  answered W (missed (missed s)) resp →
  Body resp = (body, None) →
  200 ≤ StatusCode resp < 300 →
  (json_Unmarshal_token body).2 ≠ None ∨
    AccessToken (json_Unmarshal_token body).1 = "" →
  ∃ err,
    (exchangeToken W (missed (missed s))).1 = ("", 0, Some err) ∧
    (GetToken W s).1 = ("", Some err) ∧
    cache (GetToken W s).2 = cache s.
Proof.
  intros H1 H2 Hans Hbody Hstatus Hbad.
  destruct (GetToken_answered _ _ H1 H2 Hans) as (s' & Hex & Hc & Hget).
  rewrite Hget, Hex. simpl.
  assert (∃ err, readResponse resp = ("", 0, Some err)) as [err Hr].
  { unfold readResponse. rewrite Hbody.
    case_bool_decide.
    - destruct (json_Unmarshal_error body) as [errResp uerr].
      destruct (_ && _); eauto.
    - destruct (json_Unmarshal_token body) as [tokenResp [e|]]; simpl in *; [eauto|].
      destruct Hbad as [?| ->]; [done|].
      rewrite bool_decide_eq_true_2 by done. eauto. }
  exists err. by rewrite Hr.
Qed.

(** C7. A 200 response that decodes with a token and an [expires_in] of
    zero or less does not fail: the exchange returns the token with 3600
    seconds, and [GetToken] caches it with the expiry one hour after the
    clock reading it takes once the exchange has returned. *)
Theorem non_positive_ttl_defaults (s : Sys) (resp : Response) (body : string)
    (tokenResp : tokenExchangeResponse) :
  freshAt W s = false → freshAt W (missed s) = false →
  answered W (missed (missed s)) resp →
  Body resp = (body, None) →
  StatusCode resp = StatusOK →
  json_Unmarshal_token body = (tokenResp, None) →
  AccessToken tokenResp ≠ "" →
  ExpiresIn tokenResp ≤ 0 →
  let s' := (exchangeToken W (missed (missed s))).2 in
  (exchangeToken W (missed (missed s))).1 = (AccessToken tokenResp, 3600, None) ∧
  (GetToken W s).1 = (AccessToken tokenResp, None) ∧
  cachedToken (cache (GetToken W s).2) = AccessToken tokenResp ∧
  tokenExpiry (cache (GetToken W s).2) = clock W (ticks s') + 1 * time.Hour.
Proof.
  intros H1 H2 Hans Hbody Hstatus Hjson Htok Httl s'.
  destruct (GetToken_answered _ _ H1 H2 Hans) as (s1 & Hex & Hc & Hget).
  subst s'. rewrite Hget, Hex. simpl.
  assert (readResponse resp = (AccessToken tokenResp, 3600, None)) as ->.
  { unfold readResponse. rewrite Hbody, bool_decide_eq_false_2 by (intros ?; done).
    rewrite Hjson, bool_decide_eq_false_2, bool_decide_eq_true_2 by done.
    done. }
  done.
Qed.

(** Tokens returned with a nil error are not empty. *)
Lemma readResponse_token resp token expiresIn :
  readResponse resp = (token, expiresIn, None) → token ≠ "".
Proof.
  unfold readResponse. destruct (Body resp) as [body [e|]]; [done|].
  case_bool_decide.
  - destruct (json_Unmarshal_error body) as [errResp uerr].
    by destruct (_ && _).
  - destruct (json_Unmarshal_token body) as [tokenResp [e|]]; [done|].
    case_bool_decide; [done|]. by intros [= <- _].
Qed.

Lemma exchangeToken_token s token expiresIn s' :
  exchangeToken W s = ((token, expiresIn, None), s') → token ≠ "".
Proof.
  unfold exchangeToken, bind, ret, get_cache, awsProvider_GetWebIdentityToken,
    httpClient_do. simpl.
  destruct (awsProvider W (awsCalls s)) as [awsToken [err|]]; simpl; [done|].
  destruct (http_NewRequest _ _); simpl; [done|].
  destruct (httpClient_Do W _ _) as [resp|err]; [|done].
  intros [= Hr _]. by eapply readResponse_token.
Qed.

Lemma freshAt_token s : freshAt W s = true → cachedToken (cache s) ≠ "".
Proof. unfold freshAt. rewrite usable_true. by intros [? _]. Qed.

Lemma GetToken_token s token s' :
  GetToken W s = ((token, None), s') → token ≠ "".
Proof.
  rewrite GetToken_eq.
  destruct (freshAt W s) eqn:H1.
  { intros [= <- _]. by apply freshAt_token. }
  destruct (freshAt W (missed s)) eqn:H2.
  { intros [= <- _]. apply freshAt_token in H2. by rewrite cache_missed in H2. }
  destruct (exchangeToken W (missed (missed s)))
    as [[[tok expiresIn] [err|]] s1] eqn:Hex; [done|].
  intros [= <- _]. by eapply exchangeToken_token.
Qed.

End CacheClaims.

(** ** The STS provider *)

Section ProviderClaims.

Import STSTokenProvider.
Context (W : STSTokenProvider.World).

Lemma provider_cacheFresh_eq (s : STSTokenProvider.Sys) :
  STSTokenProvider.cacheFresh W s =
    if bool_decide (cachedToken (self s) ≠ "") then
      (usable (cachedToken (self s)) (tokenExpiry (self s)) (30 * time.Second)
              (clock W (ticks s)),
       {| self := self s; ticks := S (ticks s); stsCalls := stsCalls s |})
    else (false, s).
Proof.
  unfold STSTokenProvider.cacheFresh, bind, ret, get_self, STSTokenProvider.time_Now.
  simpl. by case_bool_decide.
Qed.

(** C10. The provider serves its cached token exactly when the token is
    not empty and the clock reading is more than 30 seconds before the
    cached expiry, a constant of the function. When that test fails and
    STS answers with a token that is not empty, the token is returned and
    cached, with the expiry STS gave or, when it gave none, five minutes
    after the clock reading taken then. *)
Theorem sts_expiry_and_buffer (s : STSTokenProvider.Sys) :
  let s1 := (STSTokenProvider.cacheFresh W s).2 in
  ((STSTokenProvider.cacheFresh W s).1 = true ↔
     cachedToken (self s) ≠ "" ∧
     clock W (ticks s) < tokenExpiry (self s) - 30 * time.Second) ∧
  ∀ output token,
    (STSTokenProvider.cacheFresh W s).1 = false →
    stsClient W (stsCalls s) = inl output →
    WebIdentityToken output = Some token →
    token ≠ "" →
    (GetWebIdentityToken W s).1 = (token, None) ∧
    cachedToken (self (GetWebIdentityToken W s).2) = token ∧
    tokenExpiry (self (GetWebIdentityToken W s).2) =
      match Expiration output with
      | Some expiration => expiration
      | None => clock W (ticks s1) + 5 * time.Minute
      end.
Proof.
  intros s1. split.
  - rewrite provider_cacheFresh_eq. case_bool_decide as Hne; simpl.
    + rewrite usable_true. change (time.neg (30 * time.Second)) with (- (30 * time.Second)).
      split; intros [? ?]; split; try done; lia.
    + split; [done|]. by intros [? _].
  - intros output token Hstale Hsts Htok Hne.
    assert (stsCalls s1 = stsCalls s) as Hcalls.
    { subst s1. rewrite provider_cacheFresh_eq. by case_bool_decide. }
    unfold GetWebIdentityToken, bind. subst s1.
    destruct (STSTokenProvider.cacheFresh W s) as [ok s1]. simpl in *. subst ok.
    unfold stsClient_GetWebIdentityToken. rewrite Hcalls, Hsts, Htok.
    rewrite bool_decide_eq_false_2 by done.
    by destruct (Expiration output).
Qed.

End ProviderClaims.

(** ** The round tripper *)

Section RoundTripperClaims.

Context `{ext : Externals} (W : World) (cfg : Config).
Context (base : http.Request → gmap string (list string) →
                (Response + error) * gmap string (list string)).

(** C8. A round trip changes no header map that exists when it starts,
    the one of the original request among them. When the token is
    obtained, the base transport is handed one request: a copy whose
    header map did not exist before and holds the original's headers with
    [Authorization] set to ["Bearer " + token]. When [GetToken] fails,
    the error is returned and the base transport is handed nothing. *)
Theorem original_request_not_mutated (p : Process) (req : http.Request) :
  is_Some (store p !! http.Header req) →
  let res := (RoundTrip W cfg base req p).1 in
  let p' := (RoundTrip W cfg base req p).2 in
  store p' !! http.Header req = store p !! http.Header req ∧
  (∀ l, is_Some (store p !! l) → store p' !! l = store p !! l) ∧
  (∀ token, bearer W cfg p = (token, None) →
     ∃ r, handed p' =
            handed p ++
              [(r, <["Authorization" := ["Bearer " +:+ token]]>
                     (http.headers (store p) req))] ∧
          store p !! http.Header r = None ∧
          http.Header r ≠ http.Header req ∧
          http.Rest r = http.Rest req) ∧
  (∀ token err, bearer W cfg p = (token, Some err) →
     res = inr err ∧ handed p' = handed p ∧ store p' = store p).
Proof.
  intros Hreq res p'. subst res p'.
  assert (∀ l, is_Some (store p !! l) → l ≠ fresh (dom (store p))) as Hfresh.
  { intros l Hl ->. apply elem_of_dom in Hl. by apply is_fresh in Hl. }
  unfold RoundTrip, bearer, bind, ret, cache_GetToken, on_store, base_RoundTrip,
    http.Clone, http.Header_Set, http.headers. simpl.
  destruct (ext_cache p) as [sys|]; simpl.
  - destruct (GetToken W sys) as [[token [err|]] sys']; simpl.
    + split; [done|]. split; [done|]. split; [by intros ? [=]|].
      by intros ? ? [= _ <-].
    + rewrite !lookup_insert_eq. simpl.
      destruct (base _ _) as [res hdr']. simpl.
      split; [by rewrite !insert_insert_eq, lookup_insert_ne by (symmetry; by apply Hfresh)|].
      split.
      { intros l Hl. by rewrite !insert_insert_eq, lookup_insert_ne
          by (symmetry; by apply Hfresh). }
      split; [|by intros ? ? [=]].
      intros ? [= <-]. eexists. split; [done|]. simpl.
      split; [apply not_elem_of_dom, is_fresh|].
      split; [symmetry; by apply Hfresh | done].
  - rewrite !lookup_insert_eq. simpl.
    destruct (base _ _) as [res hdr']. simpl.
    split; [by rewrite !insert_insert_eq, lookup_insert_ne by (symmetry; by apply Hfresh)|].
    split.
    { intros l Hl. by rewrite !insert_insert_eq, lookup_insert_ne
        by (symmetry; by apply Hfresh). }
    split; [|by intros ? ? [=]].
    intros ? [= <-]. eexists. split; [done|]. simpl.
    split; [apply not_elem_of_dom, is_fresh|].
    split; [symmetry; by apply Hfresh | done].
Qed.

End RoundTripperClaims.

(** ** Concurrent callers *)

Section ConcurrentFacts.

Import Concurrent.
Context `{ext : Externals}.

Lemma lookup_goto σ i p0 p j q :
  goroutines σ !! i = Some p0 →
  goroutines (goto i p σ) !! j = Some q →
  (j = i ∧ q = p) ∨ (j ≠ i ∧ goroutines σ !! j = Some q).
Proof.
  intros Hi. simpl. destruct (decide (j = i)) as [->|Hne].
  - rewrite list_lookup_insert_eq by (by eapply lookup_lt_Some).
    intros [= <-]. by left.
  - rewrite list_lookup_insert_ne by done. by right.
Qed.

Lemma safe_init c t n : safe (init c t n).
Proof.
  split; simpl.
  - intros i k p [? _]%lookup_replicate. done.
  - intros i j k k' p p' [? _]%lookup_replicate. done.
  - done.
  - intros i k r [? _]%lookup_replicate. done.
  - intros i r [? _]%lookup_replicate. done.
  - intros i k p [? _]%lookup_replicate. done.
  - intros i p token [-> _]%lookup_replicate. done.
  - done.
Qed.

Ltac step_cases H :=
  match type of H with
  | step ?e ?σ = Some _ =>
      destruct e; simpl in H; repeat case_match; simplify_eq
  end.

Lemma exchangeFinish_token r token expiresIn :
  exchangeFinish r = (token, expiresIn, None) → token ≠ "".
Proof. destruct r; simpl; [apply readResponse_token | done]. Qed.

Lemma post_token r token : post r = (token, None) → r = (token, None).
Proof. destruct r as [t [e|]]; unfold post; simpl; by intros [= <-]. Qed.

Lemma safe_step e σ σ' : safe σ → step e σ = Some σ' → safe σ'.
Proof.
  intros Hs Hstep. step_cases Hstep.
  all: destruct Hs as [Hl Hsg Hf Hr Hfast Hsn Hh Hp].
  all: split; simpl; intros.
  all: repeat match goal with
       | H : <[_:=_]> _ !! _ = Some _ |- _ =>
           apply list_lookup_insert_Some in H as [(? & ? & ?)|[? ?]]
       end; simplify_eq/=; eauto.
  all: try match goal with
       | H : freshNow _ = true |- cachedToken _ ≠ "" =>
           by apply usable_true in H as [? _]
       | H : exchangeFinish _ = (?t, _, None) |- ?t ≠ "" =>
           by eapply exchangeFinish_token
       | H : post _ = (?t, None) |- ?t ≠ "" =>
           apply post_token in H; simplify_eq; by eauto
       | Hn : flight ?σ = None, H : goroutines ?σ !! _ = Some (Leading _ _) |- _ =>
           apply Hl in H; congruence
       end.
  all: try (exfalso; eauto; fail).
  all: try match goal with
       | |- ∃ c, (?l ++ [_]) !! length ?l = Some c ∧ _ =>
           eexists; split; [apply list_lookup_middle; done | done]
       end.
  - (* a new call is registered: the calls before it are as they were *)
    match goal with H : _ !! _ = Some (Returned _ _) |- _ =>
      destruct (Hr _ _ _ H) as (c & r' & Hc & ? & ?) end.
    exists c, r'. by rewrite (lookup_app_l_Some _ _ _ _ Hc).
  - match goal with H : (_ ++ [_]) !! _ = Some _ |- _ =>
      apply lookup_app_Some in H as [?|[_ Hx]]; [by eauto|];
      apply list_lookup_singleton_Some in Hx as [_ <-] end.
    done.
  - (* a waiter returns the results of its call *)
    match goal with H : calls _ !! _ = Some {| result := Some ?p |} |- _ =>
      destruct p as [t [e|]]; simplify_eq/=; by eapply Hp end.
  - (* the leader publishes: the key is deleted *)
    match goal with
    | H : _ !! _ = Some (Leading _ _), H0 : (if _ then _ else _) = Some _ |- _ =>
        rewrite (Hl _ _ _ H), bool_decide_eq_true_2 in H0 by done; done
    end.
  - match goal with H : _ !! _ = Some (Leading _ _) |- _ =>
      destruct (Hf _ (Hl _ _ _ H)) as (c & Hc & _) end.
    rewrite list_lookup_alter_eq, Hc. simpl. eauto.
  - match goal with
    | H : _ !! _ = Some (Leading ?k _), H' : _ !! _ = Some (Returned (Call ?k0) _) |- _ =>
        destruct (Hr _ _ _ H') as (c & r' & Hc & Hres & ->);
        destruct (decide (k = k0)) as [->|Hne];
        [ destruct (Hf _ (Hl _ _ _ H)) as (c' & Hc' & Hnone); congruence
        | rewrite list_lookup_alter_ne by done; eauto ]
    end.
  - match goal with H : _ !! _ = Some (Leading _ (FnDone ?r)) |- _ =>
      destruct r as [t [e|]]; simplify_eq/=; by eapply (Hh _ _ _ H) end.
  - match goal with
    | H : _ !! _ = Some (Leading ?k _), H0 : alter _ _ _ !! ?k0 = Some _ |- _ =>
        destruct (decide (k = k0)) as [->|Hne];
        [ rewrite list_lookup_alter_eq in H0;
          destruct (calls σ !! k0); simplify_eq/=; by eapply (Hh _ _ _ H)
        | rewrite list_lookup_alter_ne in H0 by done; by eauto ]
    end.
Qed.

Lemma safe_run evs σ σ' : safe σ → run evs σ = Some σ' → safe σ'.
Proof.
  revert σ. induction evs as [|e evs IH]; intros σ Hs; simpl.
  - by intros [= <-].
  - destruct (step e σ) as [σ1|] eqn:Hstep; simpl; [|done].
    intros Hrun. by eapply IH, Hrun; eapply safe_step.
Qed.

#[local] Arguments elapsed : simpl never.

Lemma step_elapsed e σ σ' :
  step e σ = Some σ' → now σ' = now σ + elapsed [e] ∧ 0 ≤ elapsed [e].
Proof.
  intros Hstep. step_cases Hstep; unfold elapsed; simpl; try lia.
  match goal with H : bool_decide _ = true |- _ => apply bool_decide_eq_true in H end.
  lia.
Qed.

Lemma step_now e σ σ' : step e σ = Some σ' → now σ ≤ now σ'.
Proof. intros [? ?]%step_elapsed. lia. Qed.

Lemma step_length e σ σ' :
  step e σ = Some σ' → length (goroutines σ') = length (goroutines σ).
Proof. intros Hstep. step_cases Hstep; simpl; by rewrite ?length_insert. Qed.

Lemma elapsed_cons e evs : elapsed (e :: evs) = elapsed [e] + elapsed evs.
Proof. unfold elapsed. destruct e; simpl; lia. Qed.

Lemma run_elapsed evs σ σ' :
  run evs σ = Some σ' → now σ' = now σ + elapsed evs ∧ 0 ≤ elapsed evs.
Proof.
  revert σ. induction evs as [|e evs IH]; intros σ.
  - intros [= <-]. unfold elapsed. simpl. lia.
  - cbn [run]. destruct (step e σ) as [σ1|] eqn:Hstep; simpl; [|done].
    intros Hrun. apply IH in Hrun. apply step_elapsed in Hstep.
    rewrite elapsed_cons. lia.
Qed.

Lemma run_length evs σ σ' :
  run evs σ = Some σ' → length (goroutines σ') = length (goroutines σ).
Proof.
  revert σ. induction evs as [|e evs IH]; intros σ.
  - by intros [= <-].
  - cbn [run]. destruct (step e σ) as [σ1|] eqn:Hstep; simpl; [|done].
    intros Hrun. apply IH in Hrun. apply step_length in Hstep. congruence.
Qed.

Section HealthyRuns.

Context (c0 : tokenCache) (t0 : Z) (token : string) (expiresIn : Z).
Hypothesis cold :
  usable (cachedToken c0) (tokenExpiry c0) (expiryBuffer c0) t0 = false.

Lemma before_stale σ :
  t0 ≤ now σ → before c0 t0 token expiresIn σ → freshNow σ = false.
Proof.
  intros Ht (Hc & _). unfold freshNow. rewrite Hc. by eapply usable_later.
Qed.

Lemma after_fresh σ :
  after c0 t0 token expiresIn σ →
  now σ < t0 + time.mul expiresIn time.Second + time.neg (expiryBuffer c0) →
  freshNow σ = true ∧ cachedToken (shared σ) = token.
Proof.
  intros (Hne & (expiry & Hexp & Hc) & _) Hnow. unfold freshNow.
  rewrite Hc. simpl. split; [|done]. apply usable_true. split; [done|lia].
Qed.

Lemma steady_step e σ σ' :
  healthy c0 token expiresIn e →
  steady c0 t0 token expiresIn σ →
  step e σ = Some σ' →
  now σ' < t0 + time.mul expiresIn time.Second + time.neg (expiryBuffer c0) →
  steady c0 t0 token expiresIn σ'.
Proof.
  intros He (Hs & Ht & Hphase) Hstep Hnow.
  pose proof (step_now _ _ _ Hstep) as Hmono.
  pose proof (safe_step _ _ _ Hs Hstep) as Hs'.
  split; [done|]. split; [lia|].
  destruct Hphase as [Hb|Ha].
  - (* the token is not stored yet *)
    pose proof (before_stale _ Ht Hb) as Hstale.
    destruct Hb as (Hc & Hle & Hwire & Hfl & Hcalls & Hpcs).
    destruct Hs as [Hl Hsg _ _ _ _ Hh _].
    step_cases Hstep.
    all: try congruence.
    all: try (match goal with H : goroutines _ !! _ = Some _ |- _ =>
                apply Hpcs in H; simpl in H; done end).
    all: try (match goal with H : calls _ !! _ = Some _ |- _ =>
                apply Hcalls in H; simpl in H; done end).
    all: try (match goal with He : healthy _ _ _ (Aws _ _) |- _ =>
            destruct He as [? He]; congruence end).
    all: match goal with
         | |- _ ∨ after _ _ _ _ (goto _ _ (write _ _ _)) => right
         | |- _ => left
         end.
    all: unfold before, after; simpl.
    all: match goal with H : goroutines _ !! _ = Some _ |- _ =>
           pose proof (Hpcs _ _ H) as Hold; simpl in Hold end || idtac.
    all: repeat match goal with |- _ ∧ _ => split end; try done.
    all: try (intros j q Hj;
              apply list_lookup_insert_Some in Hj as [(? & ? & ?)|[? Hj]];
              simplify_eq/=;
              [ try done
              | pose proof (Hpcs _ _ Hj) as Hq; destruct q as [| | |k' p'|]; simpl in *;
                try done; exfalso; eauto ]).
    all: try (destruct_and?; simplify_eq/=; unfold time.Add in *; split_and?;
              first [ done | lia | congruence | by auto ]).
    + (* a new call is registered *)
      intros k c [?|[_ Hx]]%lookup_app_Some; [by eauto|].
      by apply list_lookup_singleton_Some in Hx as [_ <-].
    + (* the token is stored *)
      destruct Hold as (_ & <- & _). by eapply (Hh _ _ _ H).
    + destruct Hold as (_ & <- & ?). by eexists.
    + intros k' c r Hc Hr. apply Hcalls in Hc. congruence.
    + (* exchangeToken is called *)
      rewrite length_app. simpl. lia.
    + intros Hnone. apply Hl in H. congruence.
  - (* the token is stored *)
    assert (now σ < t0 + time.mul expiresIn time.Second + time.neg (expiryBuffer c0))
      as Hnow0 by lia.
    destruct (after_fresh _ Ha Hnow0) as [Hfresh Htok].
    destruct Ha as (Hne & Hc & Hst & Hwire & Hcalls & Hpcs).
    right. step_cases Hstep.
    all: try congruence.
    all: try (match goal with H : goroutines _ !! _ = Some _ |- _ =>
                apply Hpcs in H; simpl in H; done end).
    all: unfold after; simpl.
    all: match goal with H : goroutines _ !! _ = Some _ |- _ =>
           pose proof (Hpcs _ _ H) as Hold; simpl in Hold end || idtac.
    all: split_and!; try done.
    all: try (intros j q Hj;
              apply list_lookup_insert_Some in Hj as [(? & ? & ?)|[? Hj]];
              simplify_eq/=; [ try done | by eapply Hpcs ]).
    + intros k c r [?|[_ Hx]]%lookup_app_Some; [by eauto|].
      by apply list_lookup_singleton_Some in Hx as [_ <-].
    + match goal with H : calls _ !! _ = Some _ |- _ =>
        by rewrite (Hcalls _ _ _ H eq_refl) end.
    + intros k0 c r0 Hk0 Hres.
      destruct (decide (k = k0)) as [->|Hk].
      * rewrite list_lookup_alter_eq in Hk0.
        destruct (calls σ !! k0); simplify_eq/=. done.
      * rewrite list_lookup_alter_ne in Hk0 by done. by eapply Hcalls.
Qed.

Lemma steady_run evs σ σ' :
  Forall (healthy c0 token expiresIn) evs →
  steady c0 t0 token expiresIn σ →
  in_time c0 t0 expiresIn (now σ + elapsed evs) →
  run evs σ = Some σ' →
  steady c0 t0 token expiresIn σ'.
Proof.
  unfold in_time. revert σ. induction evs as [|e evs IH]; intros σ Hev Hst Hnow.
  - by intros [= <-].
  - cbn [run]. destruct (step e σ) as [σ1|] eqn:Hstep; simpl; [|done].
    intros Hrun. apply Forall_cons in Hev as [He Hev].
    pose proof (step_elapsed _ _ _ Hstep) as [Hn1 ?].
    pose proof (run_elapsed _ _ _ Hrun) as [_ ?].
    rewrite elapsed_cons in Hnow.
    apply (IH σ1); [done | | lia | done].
    eapply steady_step; [done | done | done | lia].
Qed.

Lemma steady_init n : steady c0 t0 token expiresIn (init c0 t0 n).
Proof.
  split; [apply safe_init|]. split; [simpl; lia|]. left.
  unfold before. simpl. split_and!; try done; [lia|].
  by intros i p [-> _]%lookup_replicate.
Qed.

(** What a healthy run comes to. *)
Lemma healthy_run n evs σ :
  Forall (healthy c0 token expiresIn) evs →
  in_time c0 t0 expiresIn (t0 + elapsed evs) →
  run evs (init c0 t0 n) = Some σ →
  (started σ ≤ 1)%nat ∧
  length (wire σ) = started σ ∧
  (∀ i r, returned σ i = Some r → r = (token, None)) ∧
  (all_returned σ → (0 < n)%nat → started σ = 1%nat).
Proof.
  intros Hev Htime Hrun.
  pose proof (steady_run _ _ _ Hev (steady_init n) Htime Hrun) as (_ & _ & Hphase).
  pose proof (run_length _ _ _ Hrun) as Hlen. simpl in Hlen.
  rewrite length_replicate in Hlen.
  destruct Hphase as [(_ & Hle & Hw & _ & _ & Hpcs)|(_ & _ & Hst & Hw & _ & Hpcs)].
  - split; [done|]. split; [done|]. split.
    + intros i r. unfold returned.
      destruct (goroutines σ !! i) as [p|] eqn:Hi; [|done].
      apply Hpcs in Hi. by destruct p.
    + intros Hall Hn. exfalso. unfold all_returned in Hall.
      destruct (goroutines σ) as [|p ps] eqn:Hg; [simpl in Hlen; lia|].
      simpl in Hall. apply andb_true_iff in Hall as [Hp _].
      specialize (Hpcs 0%nat p eq_refl). by destruct p.
  - split; [lia|]. split; [lia|]. split; [|done].
    intros i r. unfold returned.
    destruct (goroutines σ !! i) as [p|] eqn:Hi; [|done].
    apply Hpcs in Hi. destruct p; try done. simpl in Hi. by intros [= <-].
Qed.

End HealthyRuns.

End ConcurrentFacts.

(** ** One caller on its own: the two models agree *)

Section Solo.

Import Concurrent.
Context `{ext : Externals} (W : World).

(** The clock does not run backwards. *)
Hypothesis monotone : ∀ i j, (i ≤ j)%nat → clock W i ≤ clock W j.

(** The steps, one by one. *)
Lemma run_cons e evs σ σ' : step e σ = Some σ' → run (e :: evs) σ = run evs σ'.
Proof. intros Hstep. cbn [run]. by rewrite Hstep. Qed.

Lemma step_tick d σ : 0 ≤ d → step (Tick d) σ = Some (later d σ).
Proof. intros Hd. simpl. by rewrite bool_decide_eq_true_2. Qed.

Lemma step_fast_hit i σ :
  goroutines σ !! i = Some AtFastPath → freshNow σ = true →
  step (Run i) σ = Some (goto i (Returned FastPath (cachedToken (shared σ), None)) σ).
Proof. intros Hi Hf. simpl. by rewrite Hi, Hf. Qed.

Lemma step_fast_miss i σ :
  goroutines σ !! i = Some AtFastPath → freshNow σ = false →
  step (Run i) σ = Some (goto i AtDo σ).
Proof. intros Hi Hf. simpl. by rewrite Hi, Hf. Qed.

Lemma step_lead i σ :
  goroutines σ !! i = Some AtDo → flight σ = None →
  step (Run i) σ = Some (goto i (Leading (length (calls σ)) FnCheck) (register σ)).
Proof. intros Hi Hf. simpl. by rewrite Hi, Hf. Qed.

Lemma step_check_hit i k σ :
  goroutines σ !! i = Some (Leading k FnCheck) → freshNow σ = true →
  step (Run i) σ = Some (goto i (Leading k (FnDone (cachedToken (shared σ), None))) σ).
Proof. intros Hi Hf. simpl. by rewrite Hi, Hf. Qed.

Lemma step_check_miss i k σ :
  goroutines σ !! i = Some (Leading k FnCheck) → freshNow σ = false →
  step (Run i) σ = Some (goto i (Leading k FnExchange) σ).
Proof. intros Hi Hf. simpl. by rewrite Hi, Hf. Qed.

Lemma step_aws_failed i k r err σ :
  goroutines σ !! i = Some (Leading k FnExchange) →
  exchangeStart (shared σ) r = inl err →
  step (Aws i r) σ = Some (goto i (Leading k (FnDone (failed err))) (entering σ)).
Proof. intros Hi Hr. simpl. by rewrite Hi, Hr. Qed.

Lemma step_aws_sent i k r req σ :
  goroutines σ !! i = Some (Leading k FnExchange) →
  exchangeStart (shared σ) r = inr req →
  step (Aws i r) σ = Some (goto i (Leading k (FnAwait req)) (posting req (entering σ))).
Proof. intros Hi Hr. simpl. by rewrite Hi, Hr. Qed.

Lemma step_http_failed i k req r token expiresIn err σ :
  goroutines σ !! i = Some (Leading k (FnAwait req)) →
  exchangeFinish r = (token, expiresIn, Some err) →
  step (Http i r) σ = Some (goto i (Leading k (FnDone (failed err))) σ).
Proof. intros Hi Hr. simpl. by rewrite Hi, Hr. Qed.

Lemma step_http_ok i k req r token expiresIn σ :
  goroutines σ !! i = Some (Leading k (FnAwait req)) →
  exchangeFinish r = (token, expiresIn, None) →
  step (Http i r) σ = Some (goto i (Leading k (FnNow token expiresIn)) σ).
Proof. intros Hi Hr. simpl. by rewrite Hi, Hr. Qed.

Lemma step_read_clock i k token expiresIn σ :
  goroutines σ !! i = Some (Leading k (FnNow token expiresIn)) →
  step (Run i) σ =
    Some (goto i (Leading k (FnLock token
                               (time.Add (now σ) (time.mul expiresIn time.Second)))) σ).
Proof. intros Hi. simpl. by rewrite Hi. Qed.

Lemma step_store i k token expiry σ :
  goroutines σ !! i = Some (Leading k (FnLock token expiry)) →
  step (Run i) σ = Some (goto i (Leading k (FnDone (token, None))) (write token expiry σ)).
Proof. intros Hi. simpl. by rewrite Hi. Qed.

Lemma step_publish i k r σ :
  goroutines σ !! i = Some (Leading k (FnDone r)) →
  step (Run i) σ = Some (goto i (Returned (Call k) (post r)) (publish k r σ)).
Proof. intros Hi. simpl. by rewrite Hi. Qed.

Lemma freshNow_at σ c t :
  shared σ = c → now σ = t →
  freshNow σ = usable (cachedToken c) (tokenExpiry c) (expiryBuffer c) t.
Proof. by intros <- <-. Qed.

Ltac solo_step lem :=
  erewrite run_cons; [| eapply lem; first [reflexivity | eassumption]].

(** One caller on its own in the interleaving model, on the schedule
    [solo], returns what [GetToken] returns, leaves the cache [GetToken]
    leaves, and has called [exchangeToken] and sent requests as often. *)
Lemma solo_refines (s : Sys) :
  ∃ σ,
    run (solo W s) (init (cache s) (clock W (ticks s)) 1) = Some σ ∧
    returned σ 0 = Some (GetToken W s).1 ∧
    shared σ = cache (GetToken W s).2 ∧
    awsCalls (GetToken W s).2 = (awsCalls s + started σ)%nat ∧
    sent (GetToken W s).2 = sent s ++ wire σ.
Proof.
  assert (0 ≤ clock W (ticks (missed s)) - clock W (ticks s)) as Hd1.
  { pose proof (ticks_missed s).
    pose proof (monotone (ticks s) (ticks (missed s))). lia. }
  assert (0 ≤ clock W (ticks (missed (missed s))) - clock W (ticks (missed s))) as Hd2.
  { pose proof (ticks_missed (missed s)).
    pose proof (monotone (ticks (missed s)) (ticks (missed (missed s)))). lia. }
  unfold solo. rewrite GetToken_eq, exchangeToken_halves.
  rewrite !awsCalls_missed, !sent_missed, !cache_missed.
  unfold freshAt. rewrite !cache_missed.
  destruct (usable _ _ _ (clock W (ticks s))) eqn:H1.
  { eexists. split.
    - solo_step step_fast_hit. reflexivity.
    - split_and!; rewrite ?app_nil_r; [reflexivity | reflexivity | cbn; lia | reflexivity]. }
  cbn [app].
  solo_step step_fast_miss.
  erewrite run_cons by (by apply step_tick).
  solo_step step_lead.
  match goal with |- ∃ σ, run _ ?st = _ ∧ _ => set (σ3 := st) end.
  assert (freshNow σ3 = usable (cachedToken (cache s)) (tokenExpiry (cache s))
                          (expiryBuffer (cache s)) (clock W (ticks (missed s)))) as Hf3.
  { apply freshNow_at; [reflexivity | cbn; lia]. }
  destruct (usable _ _ _ (clock W (ticks (missed s)))) eqn:H2.
  { eexists. split.
    - solo_step step_check_hit. solo_step step_publish. reflexivity.
    - split_and!; cbn; rewrite ?app_nil_r, ?cache_missed, ?awsCalls_missed, ?sent_missed;
        [reflexivity | reflexivity | lia | reflexivity]. }
  solo_step step_check_miss.
  destruct (awsProvider W (awsCalls s)) as [awsToken aerr] eqn:Haws.
  destruct (exchangeStart (cache s) (awsToken, aerr)) as [err|req] eqn:Hstart.
  { eexists. split.
    - solo_step step_aws_failed. solo_step step_publish. reflexivity.
    - split_and!; cbn; rewrite ?app_nil_r, ?cache_missed, ?awsCalls_missed, ?sent_missed;
        [reflexivity | reflexivity | lia | reflexivity]. }
  solo_step step_aws_sent.
  destruct (exchangeFinish (httpClient_Do W (length (sent s)) req))
    as [[token expiresIn] [err|]] eqn:Hfin.
  { eexists. split.
    - solo_step step_http_failed. solo_step step_publish. reflexivity.
    - split_and!; cbn; rewrite ?app_nil_r, ?cache_missed, ?awsCalls_missed, ?sent_missed;
        [reflexivity | reflexivity | lia | reflexivity]. }
  solo_step step_http_ok.
  erewrite run_cons by (by apply step_tick).
  solo_step step_read_clock. solo_step step_store. solo_step step_publish.
  eexists. split; [reflexivity|].
  split_and!; cbn; rewrite ?app_nil_r, ?cache_missed, ?awsCalls_missed, ?sent_missed;
    [reflexivity | | lia | reflexivity].
  unfold time.Add. f_equal. lia.
Qed.

End Solo.

Section ConcurrentClaims.

Import Concurrent.
Context `{ext : Externals}.

(** The cache is written by one step only: the leader's, at line 143. *)
Lemma cache_written e σ σ' :
  step e σ = Some σ' → shared σ' ≠ shared σ →
  ∃ i k token expiry,
    e = Run i ∧ goroutines σ !! i = Some (Leading k (FnLock token expiry)).
Proof.
  intros Hstep Hne.
  destruct e; simpl in Hstep; repeat case_match; simplify_eq; simpl in Hne;
    try done.
  eauto 10.
Qed.

Lemma exchangeFinish_failures (r : Response + error) :
  match r with
  | inr _ => True
  | inl resp =>
      (Body resp).2 ≠ None ∨
      StatusCode resp ≠ StatusOK ∨
      (json_Unmarshal_token (Body resp).1).2 ≠ None ∨
      AccessToken (json_Unmarshal_token (Body resp).1).1 = ""
  end →
  ∃ err, exchangeFinish r = ("", 0, Some err).
Proof.
  destruct r as [resp|err]; simpl; [|by eauto].
  unfold readResponse. destruct (Body resp) as [body [e|]]; simpl; [by eauto|].
  intros Hbad. case_bool_decide as Hst.
  - destruct (json_Unmarshal_error body) as [errResp uerr].
    destruct (_ && _); eauto.
  - destruct (json_Unmarshal_token body) as [tokenResp [e|]]; simpl in *; [eauto|].
    destruct Hbad as [?|[?|[?| ->]]]; [done..|].
    rewrite bool_decide_eq_true_2 by done. eauto.
Qed.

(** C1, as the code has it. Among callers that start together on one
    cache, whatever the interleaving: one goroutine at most runs the
    refresh function, so that while it does no other can call
    [exchangeToken]; a caller that reaches [Do] while a call is in flight
    joins it, and one that reaches it when none is starts a call, which
    tests the cache again and goes on to [exchangeToken] if the test
    fails; all who return from one call return the same results. When
    the cache is stale at the start, every exchange succeeds with the
    same token and time to live, and the time that passes stays within
    that token's use, [exchangeToken] is called once at most, one request
    at most is sent, every caller that returns returns that token, and
    once all have returned the exchange has been made exactly once. *)
Theorem single_flight (c0 : tokenCache) (t0 : Z) (n : nat)
    (evs : list event) (σ : State) :
  run evs (init c0 t0 n) = Some σ →
  (∀ i j k k' p p',
     goroutines σ !! i = Some (Leading k p) →
     goroutines σ !! j = Some (Leading k' p') → i = j) ∧
  (∀ i j k p r,
     goroutines σ !! i = Some (Leading k p) → i ≠ j → step (Aws j r) σ = None) ∧
  (∀ i k,
     goroutines σ !! i = Some AtDo → flight σ = Some k →
     step (Run i) σ = Some (goto i (Waiting k) σ)) ∧
  (∀ i,
     goroutines σ !! i = Some AtDo → flight σ = None →
     step (Run i) σ = Some (goto i (Leading (length (calls σ)) FnCheck) (register σ))) ∧
  (∀ i k,
     goroutines σ !! i = Some (Leading k FnCheck) →
     step (Run i) σ =
       Some (goto i (Leading k (if freshNow σ
                                then FnDone (cachedToken (shared σ), None)
                                else FnExchange)) σ)) ∧
  (∀ i j k ri rj,
     goroutines σ !! i = Some (Returned (Call k) ri) →
     goroutines σ !! j = Some (Returned (Call k) rj) → ri = rj) ∧
  (∀ token expiresIn,
     usable (cachedToken c0) (tokenExpiry c0) (expiryBuffer c0) t0 = false →
     Forall (healthy c0 token expiresIn) evs →
     in_time c0 t0 expiresIn (t0 + elapsed evs) →
     (started σ ≤ 1)%nat ∧
     length (wire σ) = started σ ∧
     (∀ i r, returned σ i = Some r → r = (token, None)) ∧
     (all_returned σ → (0 < n)%nat → started σ = 1%nat)).
Proof.
  intros Hrun.
  pose proof (safe_run _ _ _ (safe_init c0 t0 n) Hrun) as Hs.
  split; [apply (safe_single _ Hs)|]. split; [|split; [|split; [|split; [|split]]]].
  - intros i j k p r Hi Hne. simpl.
    destruct (goroutines σ !! j) as [pj|] eqn:Hj; [|done].
    destruct pj as [| | |k' pj|]; try done.
    destruct pj; try done.
    destruct Hne. by eapply (safe_single _ Hs).
  - intros i k Hi Hk. simpl. by rewrite Hi, Hk.
  - intros i Hi Hnone. by apply step_lead.
  - intros i k Hi. simpl. rewrite Hi. by destruct (freshNow σ).
  - intros i j k ri rj Hi Hj.
    destruct (safe_result _ Hs _ _ _ Hi) as (c & r & Hc & Hr & ->).
    destruct (safe_result _ Hs _ _ _ Hj) as (c' & r' & Hc' & Hr' & ->).
    congruence.
  - intros token expiresIn Hcold Hev Htime. by eapply healthy_run.
Qed.

Ltac by_event H :=
  match type of H with
  | step ?e ?σ = Some _ =>
      destruct e; simpl in H; repeat case_match; simplify_eq
  end.

(** No call is forgotten, and a call that has results keeps having
    results. *)
Lemma step_keeps e σ σ' :
  step e σ = Some σ' →
  (length (calls σ) ≤ length (calls σ'))%nat ∧
  ∀ k c r, calls σ !! k = Some c → result c = Some r →
           ∃ c' r', calls σ' !! k = Some c' ∧ result c' = Some r'.
Proof.
  intros Hstep. by_event Hstep; simpl; (split; [try lia|]); eauto.
  - rewrite length_app. simpl. lia.
  - intros k c r Hc Hr. exists c, r. split; [|done]. by apply lookup_app_l_Some.
  - by rewrite length_alter.
  - intros k' c r' Hc Hr. destruct (decide (k' = k)) as [->|Hne].
    + rewrite list_lookup_alter_eq, Hc. simpl. eauto.
    + rewrite list_lookup_alter_ne by done. eauto.
Qed.

(** A caller that is before [Do], or in a call that was not complete in
    [σ0], stays so, whoever takes the step. *)
Lemma cleared_step σ0 e σ σ' i p :
  safe σ →
  (length (calls σ0) ≤ length (calls σ))%nat →
  (∀ k c r, calls σ0 !! k = Some c → result c = Some r →
            ∃ c' r', calls σ !! k = Some c' ∧ result c' = Some r') →
  goroutines σ !! i = Some p → cleared σ0 p →
  step e σ = Some σ' →
  ∃ p', goroutines σ' !! i = Some p' ∧ cleared σ0 p'.
Proof.
  intros Hs Hlen Hkept Hi Hp Hstep.
  assert (∀ j q q',
            goroutines σ !! j = Some q → (j = i → q = p → cleared σ0 q') →
            ∃ p', <[j := q']> (goroutines σ) !! i = Some p' ∧ cleared σ0 p') as Hgo.
  { intros j q q' Hj Hq. destruct (decide (j = i)) as [->|Hne].
    - exists q'. split; [apply list_lookup_insert_eq; by eapply lookup_lt_Some|].
      apply Hq; [done|congruence].
    - exists p. by rewrite list_lookup_insert_ne. }
  by_event Hstep; simpl; try (by eauto).
  all: eapply Hgo; [eassumption|]; intros -> <-; simpl in *; try done.
  - (* the caller joins the call in flight, which has no results *)
    intros c Hc. destruct (result c) as [r|] eqn:Hr; [|done].
    destruct (Hkept _ _ _ Hc Hr) as (c' & r' & Hc' & Hr').
    destruct (safe_flight _ Hs _ ltac:(eassumption)) as (c'' & Hc'' & Hnone).
    congruence.
  - (* the caller registers a call of its own *)
    intros c Hc. apply lookup_lt_Some in Hc. lia.
Qed.

Lemma cleared_run σ0 evs σ σ' i p :
  safe σ →
  (length (calls σ0) ≤ length (calls σ))%nat →
  (∀ k c r, calls σ0 !! k = Some c → result c = Some r →
            ∃ c' r', calls σ !! k = Some c' ∧ result c' = Some r') →
  goroutines σ !! i = Some p → cleared σ0 p →
  run evs σ = Some σ' →
  ∃ p', goroutines σ' !! i = Some p' ∧ cleared σ0 p'.
Proof.
  revert σ p. induction evs as [|e evs IH]; intros σ p Hs Hlen Hkept Hi Hp.
  - intros [= <-]. eauto.
  - cbn [run]. destruct (step e σ) as [σ1|] eqn:Hstep; simpl; [|done].
    destruct (cleared_step _ _ _ _ _ _ Hs Hlen Hkept Hi Hp Hstep) as (p1 & Hi1 & Hp1).
    destruct (step_keeps _ _ _ Hstep) as [Hlen1 Hkept1].
    apply (IH σ1 p1); try done.
    + by eapply safe_step.
    + lia.
    + intros k c r Hc Hr. destruct (Hkept _ _ _ Hc Hr) as (c' & r' & Hc' & Hr').
      by eapply Hkept1.
Qed.

(** C3. Once the clock has reached the cached token's [expiresAt] (the
    buffer being a duration that is not negative, and the clock not
    running backwards), [GetToken] does not serve the cache on its fast
    path. For one caller at a time: neither test of the cache passes,
    [exchangeToken] is called, and what the caller gets is what that
    exchange produced, its token or its error. Among concurrent callers:
    at such an instant a caller on the fast path goes on to [Do], and the
    leader at its test of the cache goes on to [exchangeToken]; and
    whatever happens next, a caller that missed the fast path at such an
    instant returns the results of a call of the group that was not
    complete at that instant, never a result of the fast path. *)
Theorem expired_token_not_served :
  (∀ W s,
     0 ≤ expiryBuffer (cache s) ≤ time.max_int64 →
     tokenExpiry (cache s) ≤ clock W (ticks s) →
     clock W (ticks s) ≤ clock W (S (ticks s)) →
     (fastPath W s).1 = None ∧
     (fastPath W (missed s)).1 = None ∧
     awsCalls (GetToken W s).2 = S (awsCalls s) ∧
     (GetToken W s).1 =
       match (exchangeToken W (missed (missed s))).1 with
       | (_, _, Some err) => ("", Some err)
       | (token, _, None) => (token, None)
       end) ∧
  (∀ σ i,
     0 ≤ expiryBuffer (shared σ) ≤ time.max_int64 →
     tokenExpiry (shared σ) ≤ now σ →
     (goroutines σ !! i = Some AtFastPath →
      step (Run i) σ = Some (goto i AtDo σ)) ∧
     (∀ k, goroutines σ !! i = Some (Leading k FnCheck) →
           step (Run i) σ = Some (goto i (Leading k FnExchange) σ))) ∧
  (∀ c0 t0 n evs σ i evs' σ' via r,
     run evs (init c0 t0 n) = Some σ →
     goroutines σ !! i = Some AtFastPath →
     0 ≤ expiryBuffer (shared σ) ≤ time.max_int64 →
     tokenExpiry (shared σ) ≤ now σ →
     run (Run i :: evs') σ = Some σ' →
     goroutines σ' !! i = Some (Returned via r) →
     ∃ k c r',
       via = Call k ∧ pending σ k ∧
       calls σ' !! k = Some c ∧ result c = Some r' ∧ r = post r').
Proof.
  assert (∀ σ, 0 ≤ expiryBuffer (shared σ) ≤ time.max_int64 →
               tokenExpiry (shared σ) ≤ now σ → freshNow σ = false) as Hstale.
  { intros σ Hbuf Hexp. apply not_true_is_false.
    unfold freshNow. rewrite usable_true, neg_exact.
    - intros [_ Hlt]. lia.
    - unfold time.min_int64. lia. }
  split; [apply expired_token_exchanged|]. split.
  - intros σ i Hbuf Hexp. split.
    + intros Hi. apply step_fast_miss; [done|]. by apply Hstale.
    + intros k Hi. apply step_check_miss; [done|]. by apply Hstale.
  - intros c0 t0 n evs σ i evs' σ' via r Hrun Hi Hbuf Hexp Hrun' Hret.
    pose proof (safe_run _ _ _ (safe_init c0 t0 n) Hrun) as Hs.
    pose proof (step_fast_miss i σ Hi (Hstale _ Hbuf Hexp)) as Hstep.
    rewrite (run_cons _ _ _ _ Hstep) in Hrun'.
    destruct (cleared_run σ evs' (goto i AtDo σ) σ' i AtDo) as (p' & Hp' & Hcl);
      try done.
    { by eapply safe_step. }
    { eauto. }
    { simpl. apply list_lookup_insert_eq. by eapply lookup_lt_Some. }
    rewrite Hret in Hp'. injection Hp' as <-.
    destruct via as [|k]; simpl in Hcl; [done|].
    assert (safe σ') as Hs'.
    { eapply safe_run; [|exact Hrun']. by eapply safe_step. }
    destruct (safe_result _ Hs' _ _ _ Hret) as (c & r' & Hc & Hr & ->).
    by exists k, c, r'.
Qed.

(** A failing answer makes [exchangeToken] return an error. *)
Lemma attempt_fails_error W s :
  attempt_fails W s → ∃ err, (exchangeToken W s).1 = ("", 0, Some err).
Proof.
  unfold attempt_fails. rewrite exchangeToken_halves.
  destruct (awsProvider W (awsCalls s)) as [awsToken [e|]]; simpl; [by eauto|].
  destruct (http_NewRequest _ _) as [e|]; simpl; [by eauto|].
  intros [?|Hfail]; [done|]. by apply exchangeFinish_failures.
Qed.

(** A waiter whose call has results returns them. *)
Lemma step_wait j k c r σ :
  goroutines σ !! j = Some (Waiting k) →
  calls σ !! k = Some c → result c = Some r →
  step (Run j) σ = Some (goto j (Returned (Call k) (post r)) σ).
Proof.
  intros Hj Hc Hr. simpl. rewrite Hj, Hc. destruct c as [? res].
  simpl in Hr. by subst res.
Qed.

(** The leader that holds an error publishes it, and the waiters of its
    call return it; the cache stays as it is. *)
Lemma error_propagates σ i k tok err :
  safe σ →
  goroutines σ !! i = Some (Leading k (FnDone (tok, Some err))) →
  ∃ σ',
    step (Run i) σ = Some σ' ∧
    shared σ' = shared σ ∧
    returned σ' i = Some ("", Some err) ∧
    (∃ c, calls σ' !! k = Some c ∧ result c = Some (tok, Some err)) ∧
    ∀ j, goroutines σ !! j = Some (Waiting k) →
         ∃ σ'',
           step (Run j) σ' = Some σ'' ∧
           shared σ'' = shared σ ∧
           returned σ'' j = Some ("", Some err).
Proof.
  intros Hs Hi.
  destruct (safe_flight _ Hs k (safe_leader _ Hs _ _ _ Hi)) as (c & Hc & _).
  eexists. split; [by apply step_publish|]. split; [done|].
  assert (calls (goto i (Returned (Call k) (post (tok, Some err)))
                   (publish k (tok, Some err) σ)) !! k
          = Some {| snapshot := snapshot c; result := Some (tok, Some err) |}) as Hk.
  { simpl. by rewrite list_lookup_alter_eq, Hc. }
  split; [|split; [by eauto|]].
  { unfold returned. simpl.
    rewrite list_lookup_insert_eq by (by eapply lookup_lt_Some). done. }
  intros j Hj.
  assert (j ≠ i) as Hne by (intros ->; congruence).
  eexists. split.
  - eapply step_wait; [|exact Hk|done].
    simpl. by rewrite list_lookup_insert_ne.
  - split; [done|]. unfold returned. simpl.
    rewrite list_lookup_insert_eq; [done|].
    rewrite length_insert. by eapply lookup_lt_Some.
Qed.

Lemma propagated_intro σ e i k p σ1 err :
  safe σ →
  goroutines σ !! i = Some (Leading k p) →
  step e σ = Some σ1 →
  shared σ1 = shared σ →
  goroutines σ1 = <[i := Leading k (FnDone ("", Some err))]> (goroutines σ) →
  propagated σ e i k err.
Proof.
  intros Hs Hi Hstep Hsh Hgo.
  assert (goroutines σ1 !! i = Some (Leading k (FnDone ("", Some err)))) as Hi1.
  { rewrite Hgo. apply list_lookup_insert_eq. by eapply lookup_lt_Some. }
  destruct (error_propagates σ1 i k "" err) as (σ' & Hrun & Hsh' & Hret & Hres & Hwait);
    [by eapply safe_step | done |].
  exists σ'. split_and!; try done.
  - by rewrite (run_cons _ _ _ _ Hstep), (run_cons _ _ _ _ Hrun).
  - congruence.
  - intros j Hj. destruct (Hwait j) as (σ'' & ? & ? & ?).
    + rewrite Hgo. rewrite list_lookup_insert_ne; [done|]. intros ->. congruence.
    + exists σ''. split_and!; try done. congruence.
Qed.

(** C4. Every failure of a refresh attempt leaves the cache as it was and
    reaches the callers. For one caller at a time: when the identity
    provider fails, the request cannot be built, the transport fails, the
    body cannot be read, the status is not 200, or the body does not
    decode or has no token, [GetToken] returns the error of
    [exchangeToken] with no token and the cache, token and expiry, is as
    before; and a [GetToken] that returns an error has returned no token
    and left the cache. Among concurrent callers, whatever the
    interleaving: when the identity provider fails the leader of a call,
    or the HTTP client gives it a failing answer, the leader returns the
    error with no token, every caller waiting for that call returns the
    same error, and the cache is as before; when the refresh function has
    returned an error, the cache is as the call found it; the cache is
    written by the leader's store alone; every caller of a call returns
    the results of that call, a caller that waits for a call whose result
    is an error returns that error at its next step, and a caller that
    returns an error returns no token. *)
Theorem failed_refresh_keeps_cache :
  (∀ W s,
     freshAt W s = false → freshAt W (missed s) = false →
     attempt_fails W s →
     ∃ err,
       (GetToken W s).1 = ("", Some err) ∧
       (exchangeToken W (missed (missed s))).1 = ("", 0, Some err) ∧
       cache (GetToken W s).2 = cache s) ∧
  (∀ W s token err s',
     GetToken W s = ((token, Some err), s') →
     token = "" ∧ cache s' = cache s ∧
     (exchangeToken W (missed (missed s))).1.2 = Some err) ∧
  (∀ c0 t0 n evs σ i k,
     run evs (init c0 t0 n) = Some σ →
     (∀ awsToken e,
        goroutines σ !! i = Some (Leading k FnExchange) →
        propagated σ (Aws i (awsToken, Some e)) i k
          (Errorf_w "failed to get AWS token: " e)) ∧
     (∀ req r,
        goroutines σ !! i = Some (Leading k (FnAwait req)) →
        failing r →
        ∃ err, exchangeFinish r = ("", 0, Some err) ∧
               propagated σ (Http i r) i k err)) ∧
  (∀ c0 t0 n evs σ,
     run evs (init c0 t0 n) = Some σ →
     (∀ i k r err,
        goroutines σ !! i = Some (Leading k (FnDone r)) → r.2 = Some err →
        ∃ c, calls σ !! k = Some c ∧ snapshot c = shared σ) ∧
     (∀ e σ',
        step e σ = Some σ' → shared σ' ≠ shared σ →
        ∃ i k token expiry,
          e = Run i ∧ goroutines σ !! i = Some (Leading k (FnLock token expiry))) ∧
     (∀ i k r,
        goroutines σ !! i = Some (Returned (Call k) r) →
        ∃ c r', calls σ !! k = Some c ∧ result c = Some r' ∧ r = post r') ∧
     (∀ j k c token err,
        goroutines σ !! j = Some (Waiting k) →
        calls σ !! k = Some c → result c = Some (token, Some err) →
        ∃ σ', step (Run j) σ = Some σ' ∧ shared σ' = shared σ ∧
              returned σ' j = Some ("", Some err)) ∧
     (∀ i r err, returned σ i = Some r → r.2 = Some err → r.1 = "")).
Proof.
  split; [|split; [|split]].
  - intros W s H1 H2 Hfail.
    assert (attempt_fails W (missed (missed s))) as Hfail'.
    { unfold attempt_fails in *.
      by rewrite !awsCalls_missed, !cache_missed, !sent_missed. }
    destruct (attempt_fails_error _ _ Hfail') as (err & Hex).
    pose proof (exchangeToken_frame W (missed (missed s))) as (Hc & _ & _).
    rewrite !cache_missed in Hc.
    exists err. rewrite GetToken_eq, H1, H2.
    destruct (exchangeToken W (missed (missed s))) as [[[tok ttl] o] s1].
    simpl in *. by simplify_eq.
  - intros W s token err s'. rewrite GetToken_eq.
    destruct (freshAt W s); [done|].
    destruct (freshAt W (missed s)); [done|].
    pose proof (exchangeToken_frame W (missed (missed s))) as (Hc & _ & _).
    rewrite !cache_missed in Hc.
    destruct (exchangeToken W (missed (missed s)))
      as [[[tok expiresIn] [e|]] s1]; [|done].
    by intros [= <- <- <-].
  - intros c0 t0 n evs σ i k Hrun.
    pose proof (safe_run _ _ _ (safe_init c0 t0 n) Hrun) as Hs.
    split.
    + intros awsToken e Hi.
      eapply propagated_intro; [done | exact Hi | | |].
      * by apply step_aws_failed.
      * done.
      * done.
    + intros req r Hi Hfail.
      destruct (exchangeFinish_failures r Hfail) as (err & Hr).
      exists err. split; [done|].
      eapply propagated_intro; [done | exact Hi | | |].
      * by eapply step_http_failed.
      * done.
      * done.
  - intros c0 t0 n evs σ Hrun.
    pose proof (safe_run _ _ _ (safe_init c0 t0 n) Hrun) as Hs.
    split; [|split; [|split; [|split]]].
    + intros i k [tok o] err Hi Ho. simpl in Ho. subst o.
      by eapply (safe_snapshot _ Hs).
    + intros e σ'. apply cache_written.
    + apply (safe_result _ Hs).
    + intros j k c token err Hj Hc Hr.
      eexists. split; [by eapply step_wait|]. split; [done|].
      unfold returned. simpl.
      rewrite list_lookup_insert_eq by (by eapply lookup_lt_Some). done.
    + intros i r err. unfold returned.
      destruct (goroutines σ !! i) as [[| | | |[|k] r']|] eqn:Hi; try done.
      * intros [= ->] Herr. apply (safe_fast _ Hs) in Hi. congruence.
      * intros [= ->] Herr.
        destruct (safe_result _ Hs _ _ _ Hi) as (c & [tok o] & _ & _ & ->).
        unfold post in *. simpl in *. by destruct o.
Qed.

(** C9. A [GetToken] that returns a nil error returns a token that is
    not empty: for one caller at a time, and for every caller among
    concurrent ones, whatever the interleaving. *)
Theorem token_not_empty :
  (∀ W s token s', GetToken W s = ((token, None), s') → token ≠ "") ∧
  (∀ c0 t0 n evs σ i token,
     run evs (init c0 t0 n) = Some σ →
     returned σ i = Some (token, None) → token ≠ "").
Proof.
  split; [apply GetToken_token|].
  intros c0 t0 n evs σ i token Hrun.
  pose proof (safe_run _ _ _ (safe_init c0 t0 n) Hrun) as Hs.
  unfold returned.
  destruct (goroutines σ !! i) as [[| | | |via r]|] eqn:Hi; try done.
  intros [= ->]. by eapply (safe_holds _ Hs _ _ _ Hi).
Qed.

End ConcurrentClaims.

(** ** The claims on the sample worlds *)

(** The scenarios of the specification, run. *)
#[local] Existing Instance Sample.externals.

Example cold_then_cached :
  let '(r1, s1) := GetToken Sample.granting (Sample.start Sample.cold) in
  let '(r2, s2) := GetToken Sample.granting s1 in
  r1 = ("fresh", None) ∧ r2 = ("fresh", None) ∧
  length (sent s1) = 1%nat ∧ length (sent s2) = 1%nat ∧ awsCalls s2 = 1%nat.
Proof. vm_compute. done. Qed.

Example malformed_body_is_an_error :
  (GetToken (Sample.world ("aws-token", None) (Sample.reply 200 Sample.malformedBody))
     (Sample.start Sample.cold)).1
  = ("", Some (wrapError "failed to parse token exchange response: invalid character"
                 Sample.syntaxError)).
Proof. vm_compute. done. Qed.

Example stale_is_refreshed :
  (GetToken Sample.granting (Sample.start Sample.stale)).1 = ("fresh", None).
Proof. vm_compute. done. Qed.

(** C1 as the specification words it fails: two callers of a cold cache,
    no call in flight, and [exchangeToken] runs twice, two requests are
    sent, and the callers get different results. *)
Lemma refused_race_two_exchanges :
  Concurrent.freshNow (Concurrent.init Sample.cold Sample.t0 2) = false ∧
  Concurrent.flight (Concurrent.init Sample.cold Sample.t0 2) = None ∧
  Concurrent.run Sample.refusedRace (Concurrent.init Sample.cold Sample.t0 2)
    = Some Sample.refusedRaceEnd ∧
  Concurrent.all_returned Sample.refusedRaceEnd ∧
  Concurrent.started Sample.refusedRaceEnd = 2%nat ∧
  length (Concurrent.wire Sample.refusedRaceEnd) = 2%nat ∧
  Concurrent.returned Sample.refusedRaceEnd 0
    = Some ("", Some (errorString
                        "token exchange failed (invalid_client): bad credentials")) ∧
  Concurrent.returned Sample.refusedRaceEnd 1 = Some ("fresh", None).
Proof. vm_compute. done. Qed.

(** C3 as the specification words it fails among concurrent callers: the
    third caller arrives when the cached token has expired, misses the
    fast path, joins the call in flight and returns that very token; no
    exchange is made after it arrived. *)
Lemma expired_token_served_to_joiner :
  Concurrent.run Sample.lateJoinStart (Concurrent.init Sample.stale Sample.t0 3)
    = Some Sample.lateJoinMid ∧
  Concurrent.goroutines Sample.lateJoinMid !! 2%nat = Some Concurrent.AtFastPath ∧
  cachedToken (Concurrent.shared Sample.lateJoinMid) = "fresh" ∧
  tokenExpiry (Concurrent.shared Sample.lateJoinMid)
    ≤ Concurrent.now Sample.lateJoinMid ∧
  Concurrent.run (Concurrent.Run 2 :: Sample.lateJoinRest) Sample.lateJoinMid
    = Some Sample.lateJoinEnd ∧
  Concurrent.returned Sample.lateJoinEnd 2 = Some ("fresh", None) ∧
  Concurrent.started Sample.lateJoinEnd = Concurrent.started Sample.lateJoinMid ∧
  Concurrent.wire Sample.lateJoinEnd = Concurrent.wire Sample.lateJoinMid.
Proof. vm_compute. done. Qed.

Lemma shared_race_healthy :
  Forall (Concurrent.healthy Sample.cold "fresh" 3600) Sample.sharedRace.
Proof.
  unfold Sample.sharedRace.
  repeat (apply Forall_cons; split; [simpl; first [done | by eexists]|]).
  apply Forall_nil_2.
Qed.

Lemma single_flight_witness :
  (Concurrent.started Sample.sharedRaceEnd ≤ 1)%nat ∧
  length (Concurrent.wire Sample.sharedRaceEnd) = Concurrent.started Sample.sharedRaceEnd ∧
  (∀ i r, Concurrent.returned Sample.sharedRaceEnd i = Some r → r = ("fresh", None)) ∧
  (Concurrent.all_returned Sample.sharedRaceEnd → (0 < 3)%nat →
   Concurrent.started Sample.sharedRaceEnd = 1%nat).
Proof.
  refine (proj2 (proj2 (proj2 (proj2 (proj2 (proj2
    (single_flight Sample.cold Sample.t0 3 Sample.sharedRace Sample.sharedRaceEnd _))))))
    "fresh" 3600 _ shared_race_healthy _).
  - vm_compute. reflexivity.
  - vm_compute. reflexivity.
  - vm_compute. reflexivity.
Defined.

Lemma fast_path_witness :
  GetToken Sample.granting (Sample.start Sample.warm)
    = (("tok-abc", None), ticked (Sample.start Sample.warm)) ∧
  GetToken Sample.granting (Sample.start Sample.stale)
    = slowPath Sample.granting (missed (Sample.start Sample.stale)).
Proof.
  split.
  - refine (proj1 (proj1 (proj2
      (fast_path_iff_usable Sample.granting (Sample.start Sample.warm) _)) _)).
    + vm_compute. done.
    + vm_compute. done.
  - refine (proj1 (proj2 (proj2 (proj2
      (fast_path_iff_usable Sample.granting (Sample.start Sample.stale) _)) _))).
    + vm_compute. done.
    + vm_compute. intros [_ ?]. done.
Defined.

Lemma expired_token_witness :
  (awsCalls (GetToken Sample.granting (Sample.start Sample.stale)).2 = 1%nat ∧
   (GetToken Sample.granting (Sample.start Sample.stale)).1 = ("fresh", None)) ∧
  ∃ k c r',
    Concurrent.Call 1 = Concurrent.Call k ∧
    pending Sample.lateJoinMid k ∧
    Concurrent.calls Sample.lateJoinEnd !! k = Some c ∧
    Concurrent.result c = Some r' ∧
    ("fresh", None) = Concurrent.post r'.
Proof.
  split.
  - refine (proj2 (proj2
      (proj1 expired_token_not_served Sample.granting (Sample.start Sample.stale)
         _ _ _))).
    + vm_compute. done.
    + vm_compute. done.
    + vm_compute. done.
  - refine (proj2 (proj2 expired_token_not_served)
              Sample.stale Sample.t0 3%nat Sample.lateJoinStart Sample.lateJoinMid
              2%nat Sample.lateJoinRest Sample.lateJoinEnd
              (Concurrent.Call 1) ("fresh", None) _ _ _ _ _ _).
    + vm_compute. reflexivity.
    + vm_compute. reflexivity.
    + vm_compute. done.
    + vm_compute. done.
    + vm_compute. reflexivity.
    + vm_compute. reflexivity.
Defined.

Lemma non_success_status_witness :
  (exchangeToken Sample.refusing (Sample.start Sample.cold)).1
    = ("", 0, Some (errorString
                      "token exchange failed (invalid_client): bad credentials")) ∧
  (exchangeToken Sample.throttling (Sample.start Sample.cold)).1
    = ("", 0, Some (errorString "token exchange failed with status 429")).
Proof.
  split.
  - refine (proj1 (non_success_status_error Sample.refusing (Sample.start Sample.cold)
                     {| StatusCode := 401; Body := (Sample.errorBody, None) |}
                     Sample.errorBody _ _ _) _).
    + exists "aws-token". vm_compute. done.
    + reflexivity.
    + vm_compute. done.
    + vm_compute. done.
  - refine (proj2 (non_success_status_error Sample.throttling (Sample.start Sample.cold)
                     {| StatusCode := 429; Body := ("", None) |} "" _ _ _) _).
    + exists "aws-token". vm_compute. done.
    + reflexivity.
    + vm_compute. done.
    + vm_compute. intros [? _]. done.
Defined.

Lemma success_without_token_witness :
  ∃ err,
    (GetToken Sample.tokenless (Sample.start Sample.stale)).1 = ("", Some err) ∧
    cache (GetToken Sample.tokenless (Sample.start Sample.stale)).2 = Sample.stale.
Proof.
  destruct (success_without_token_fails Sample.tokenless (Sample.start Sample.stale)
              {| StatusCode := 200; Body := (Sample.noTokenBody, None) |}
              Sample.noTokenBody) as (err & _ & Hget & Hcache).
  - vm_compute. reflexivity.
  - vm_compute. reflexivity.
  - exists "aws-token". vm_compute. done.
  - reflexivity.
  - vm_compute. done.
  - right. vm_compute. reflexivity.
  - exists err. split; [exact Hget | exact Hcache].
Defined.

Lemma non_positive_ttl_witness :
  (GetToken Sample.zeroTTL (Sample.start Sample.cold)).1 = ("tok", None) ∧
  tokenExpiry (cache (GetToken Sample.zeroTTL (Sample.start Sample.cold)).2)
    = Sample.t0 + 1 * time.Hour.
Proof.
  destruct (non_positive_ttl_defaults Sample.zeroTTL (Sample.start Sample.cold)
              {| StatusCode := 200; Body := (Sample.zeroTTLBody, None) |}
              Sample.zeroTTLBody
              {| AccessToken := "tok"; TokenType := ""; ExpiresIn := 0 |})
    as (_ & Hget & _ & Hexp).
  - vm_compute. reflexivity.
  - vm_compute. reflexivity.
  - exists "aws-token". vm_compute. done.
  - reflexivity.
  - reflexivity.
  - vm_compute. reflexivity.
  - vm_compute. done.
  - vm_compute. done.
  - split; [exact Hget | exact Hexp].
Defined.

Lemma original_request_witness :
  let p' := (RoundTrip Sample.granting Sample.staticConfig Sample.transport
               Sample.orig Sample.staticProcess).2 in
  store p' !! http.Header Sample.orig
    = store Sample.staticProcess !! http.Header Sample.orig ∧
  ∃ r, handed p' =
         [(r, <["Authorization" := ["Bearer tok"]]>
                (http.headers (store Sample.staticProcess) Sample.orig))] ∧
       http.Header r ≠ http.Header Sample.orig.
Proof.
  destruct (original_request_not_mutated Sample.granting Sample.staticConfig
              Sample.transport Sample.staticProcess Sample.orig)
    as (Hsame & _ & Hhanded & _).
  - vm_compute. eauto.
  - split; [exact Hsame|].
    destruct (Hhanded "tok" eq_refl) as (r & Hr & _ & Hne & _).
    exists r. split; [exact Hr | exact Hne].
Defined.

Lemma sts_expiry_witness :
  (STSTokenProvider.GetWebIdentityToken Sample.stsWorld Sample.newProvider).1
    = ("aws-token", None) ∧
  STSTokenProvider.tokenExpiry
    (STSTokenProvider.self
       (STSTokenProvider.GetWebIdentityToken Sample.stsWorld Sample.newProvider).2)
    = Sample.t0 + 5 * time.Minute.
Proof.
  destruct (proj2 (sts_expiry_and_buffer Sample.stsWorld Sample.newProvider)
              {| STSTokenProvider.WebIdentityToken := Some "aws-token";
                 STSTokenProvider.Expiration := None |} "aws-token")
    as (Hget & _ & Hexp).
  - vm_compute. reflexivity.
  - reflexivity.
  - reflexivity.
  - vm_compute. done.
  - split; [exact Hget | exact Hexp].
Defined.

Lemma failed_refresh_witness :
  (∃ err,
     (GetToken Sample.refusing (Sample.start Sample.stale)).1 = ("", Some err) ∧
     cache (GetToken Sample.refusing (Sample.start Sample.stale)).2 = Sample.stale) ∧
  ∃ err,
    exchangeFinish (Sample.reply 401 Sample.errorBody) = ("", 0, Some err) ∧
    propagated Sample.failedRaceMid
      (Concurrent.Http 0 (Sample.reply 401 Sample.errorBody)) 0 0 err.
Proof.
  split.
  - destruct (proj1 failed_refresh_keeps_cache Sample.refusing
                (Sample.start Sample.stale)) as (err & Hget & _ & Hcache).
    + vm_compute. reflexivity.
    + vm_compute. reflexivity.
    + vm_compute. right. right. left. discriminate.
    + exists err. split; [exact Hget | exact Hcache].
  - refine (proj2
      (proj1 (proj2 (proj2 failed_refresh_keeps_cache))
         Sample.stale Sample.t0 2%nat (take 6 Sample.failedRace) Sample.failedRaceMid
         0%nat 0%nat _)
      (exchangeRequest Sample.stale "aws-token")
      (Sample.reply 401 Sample.errorBody) _ _).
    + vm_compute. reflexivity.
    + vm_compute. reflexivity.
    + vm_compute. right. left. discriminate.
Defined.

Lemma token_not_empty_witness :
  "fresh" ≠ "" ∧ "tok-abc" ≠ "".
Proof.
  split.
  - refine (proj1 token_not_empty Sample.granting (Sample.start Sample.cold) "fresh"
              (GetToken Sample.granting (Sample.start Sample.cold)).2 _).
    vm_compute. reflexivity.
  - refine (proj2 token_not_empty Sample.warm Sample.t0 1%nat [Concurrent.Run 0]
              (Concurrent.goto 0 (Concurrent.Returned Concurrent.FastPath ("tok-abc", None))
                 (Concurrent.init Sample.warm Sample.t0 1))
              0%nat "tok-abc" _ _).
    + vm_compute. reflexivity.
    + vm_compute. reflexivity.
Defined.


(** * More of the code *)

(** ** Configuration and start *)

(** X1. [Validate] accepts a configuration exactly when it has a static
    token and no client id, or a client id with a workspace URL and no
    static token. *)
Theorem Validate_accepts (c : Config) :
  Validate c = None ↔
  (Token c ≠ "" ∧ SPClientID c = "") ∨
  (Token c = "" ∧ SPClientID c ≠ "" ∧ WorkspaceURL c ≠ "").
Proof.
  unfold Validate.
  destruct (decide (Token c = "")) as [Ht|Ht];
    destruct (decide (SPClientID c = "")) as [Hs|Hs];
    destruct (decide (WorkspaceURL c = "")) as [Hw|Hw];
    repeat case_bool_decide; simpl; try done;
    split; try done; tauto.
Qed.

(** X2. [Start] in static mode changes nothing and returns no error,
    whatever loading the AWS configuration would give. In federation mode,
    a failure to load it is returned wrapped twice, the failure itself two
    unwraps down, and the cache is left as it was; otherwise the extension
    gets a cache with the configured URL and client id, no token, and a
    positive buffer: the configured one if it is positive, five minutes if
    not. *)
Theorem Start_modes (e : databricksAuthExtension) (load : option error) :
  e_cfg (Extension_Start e load).1 = e_cfg e ∧
  (SPClientID (e_cfg e) = "" →
     Extension_Start e load = (e, None)) ∧
  (SPClientID (e_cfg e) ≠ "" → ∀ err, load = Some err →
     e_cache (Extension_Start e load).1 = e_cache e ∧
     ∃ outer inner,
       (Extension_Start e load).2 = Some outer ∧
       Unwrap outer = Some inner ∧ Unwrap inner = Some err ∧
       Error outer =
         "failed to init AWS provider: failed to load AWS config: " +:+ Error err) ∧
  (SPClientID (e_cfg e) ≠ "" → load = None →
     (Extension_Start e load).2 = None ∧
     ∃ c, e_cache (Extension_Start e load).1 = Some c ∧
       workspaceURL c = WorkspaceURL (e_cfg e) ∧
       spClientID c = SPClientID (e_cfg e) ∧
       cachedToken c = "" ∧
       0 < expiryBuffer c ∧
       expiryBuffer c =
         if bool_decide (0 < ExpiryBuffer (e_cfg e)) then ExpiryBuffer (e_cfg e)
         else 5 * time.Minute).
Proof.
  unfold Extension_Start, Start, newAWSProvider, NewSTSTokenProvider.
  split; [|split; [|split]].
  - case_bool_decide; [done|]. by destruct load.
  - intros Hs. rewrite bool_decide_eq_true_2 by done. by destruct e.
  - intros Hs err ->. rewrite bool_decide_eq_false_2 by done. simpl.
    split; [done|]. eexists _, _. split_and!; try done.
  - intros Hs ->. rewrite bool_decide_eq_false_2 by done. simpl.
    split; [done|]. eexists. split; [done|]. simpl. split_and!; try done.
    unfold expiryBufferOrDefault. case_bool_decide; [done|]. by vm_compute.
Qed.

Lemma Start_modes_witness :
  (Extension_Start
     (createExtension
        {| Token := ""; WorkspaceURL := "https://adb-123.cloud.databricks.com";
           SPClientID := "client-id"; ExpiryBuffer := 0 |})
     (Some (errorString "no credentials"))).2
  ≠ None.
Proof.
  destruct (proj1 (proj2 (proj2
              (Start_modes
                 (createExtension
                    {| Token := ""; WorkspaceURL := "https://adb-123.cloud.databricks.com";
                       SPClientID := "client-id"; ExpiryBuffer := 0 |})
                 (Some (errorString "no credentials")))))
              ltac:(vm_compute; discriminate) (errorString "no credentials") eq_refl)
    as (_ & outer & inner & Hout & _).
  rewrite Hout. discriminate.
Defined.

(** ** The round tripper over the life of the extension *)

Section MoreRoundTrips.

Context `{ext : Externals} (W : World).
Context (base : http.Request → gmap string (list string) →
                (Response + error) * gmap string (list string)).

(** X3. A static configuration that [Validate] accepts has a token, and
    its extension, started or not, asks nothing of the world on a round
    trip of a request whose header map exists, as a [RoundTripper]
    requires of its caller: the base transport is handed one request, a
    copy with [Authorization] set to ["Bearer " + token], its answer is
    the answer of the round trip, and no header map but the copy's is
    touched. *)
Theorem validated_static_round_trip (cfg : Config) (load : option error)
    (h : gmap positive (gmap string (list string))) (req : http.Request) :
  Validate cfg = None → SPClientID cfg = "" →
  is_Some (h !! http.Header req) →
  let e := (Extension_Start (createExtension cfg) load).1 in
  let r := {| http.Header := fresh (dom h); http.Rest := http.Rest req |} in
  let hdr := <["Authorization" := ["Bearer " +:+ Token cfg]]> (http.headers h req) in
  let res := (RoundTrip W cfg base req (serving e h)).1 in
  let p' := (RoundTrip W cfg base req (serving e h)).2 in
  Token cfg ≠ "" ∧
  res = (base r hdr).1 ∧
  ext_cache p' = None ∧
  handed p' = [(r, hdr)] ∧
  store p' !! http.Header r = Some (base r hdr).2 ∧
  h !! http.Header r = None ∧
  (∀ l, l ≠ http.Header r → store p' !! l = h !! l).
Proof.
  intros Hv Hs Hreq e r hdr res p'.
  split.
  { intros Htok. revert Hv. unfold Validate.
    rewrite (bool_decide_eq_false_2 (Token cfg ≠ "")) by (by intros ?).
    by rewrite (bool_decide_eq_false_2 (SPClientID cfg ≠ "")) by (by intros ?). }
  subst e res p'. unfold Extension_Start, Start.
  rewrite bool_decide_eq_true_2 by done.
  unfold RoundTrip, serving, bind, ret, on_store, base_RoundTrip,
    http.Clone, http.Header_Set, http.headers. simpl.
  rewrite !lookup_insert_eq. simpl. fold (http.headers h req). fold hdr. fold r.
  destruct (base r hdr) as [res hdr'] eqn:Hbase. simpl.
  split_and!; try done.
  - by rewrite lookup_insert_eq.
  - apply not_elem_of_dom, is_fresh.
  - intros l Hl. by rewrite !lookup_insert_ne.
Qed.

(** X4. With a cache, a round trip of a request whose header map
    exists, as a [RoundTripper] requires of its caller, takes its token
    from [GetToken] and never from the configuration: the cache is left as
    [GetToken] leaves it, so that the next round trip starts from there;
    an error of [GetToken] is the result, and otherwise the result is the
    answer of the base transport to the copy that carries the token, a
    request whose header map did not exist before. *)
Theorem federated_round_trip (cfg : Config) (p : Process) (sys : Sys)
    (req : http.Request) :
  ext_cache p = Some sys →
  is_Some (store p !! http.Header req) →
  let r := {| http.Header := fresh (dom (store p)); http.Rest := http.Rest req |} in
  let hdr token :=
    <["Authorization" := ["Bearer " +:+ token]]> (http.headers (store p) req) in
  ext_cache (RoundTrip W cfg base req p).2 = Some (GetToken W sys).2 ∧
  store p !! http.Header r = None ∧
  http.Header r ≠ http.Header req ∧
  (RoundTrip W cfg base req p).1 =
    match (GetToken W sys).1 with
    | (_, Some err) => inr err
    | (token, None) => (base r (hdr token)).1
    end.
Proof.
  intros Hc Hreq r hdr.
  assert (store p !! http.Header r = None) as Hnew
    by apply not_elem_of_dom, is_fresh.
  assert (http.Header r ≠ http.Header req) as Hne.
  { intros Heq. rewrite Heq in Hnew. rewrite Hnew in Hreq. by destruct Hreq. }
  cut (ext_cache (RoundTrip W cfg base req p).2 = Some (GetToken W sys).2 ∧
       (RoundTrip W cfg base req p).1 =
         match (GetToken W sys).1 with
         | (_, Some err) => inr err
         | (token, None) => (base r (hdr token)).1
         end).
  { intros [? ?]. by split_and!. }
  clear Hreq Hnew Hne.
  unfold RoundTrip, bind, ret, cache_GetToken, on_store, base_RoundTrip,
    http.Clone, http.Header_Set, http.headers. simpl. rewrite Hc.
  destruct (GetToken W sys) as [[token [err|]] sys']; simpl; [done|].
  rewrite !lookup_insert_eq. simpl.
  fold (http.headers (store p) req). fold (hdr token). fold r.
  by destruct (base r (hdr token)).
Qed.

End MoreRoundTrips.

Lemma validated_static_round_trip_witness :
  (RoundTrip Sample.granting Sample.staticConfig Sample.transport Sample.orig
     (serving (Extension_Start (createExtension Sample.staticConfig) None).1
        (store Sample.staticProcess))).1
  = Sample.reply 200 "".
Proof.
  refine (proj1 (proj2
    (validated_static_round_trip Sample.granting Sample.transport Sample.staticConfig
       None (store Sample.staticProcess) Sample.orig _ _ _))).
  - vm_compute. reflexivity.
  - reflexivity.
  - vm_compute. eauto.
Defined.

Lemma federated_round_trip_witness :
  ext_cache
    (RoundTrip Sample.granting Sample.staticConfig Sample.transport Sample.orig
       {| ext_cache := Some (boot Sample.cold);
          store := store Sample.staticProcess; handed := [] |}).2
  = Some (GetToken Sample.granting (boot Sample.cold)).2.
Proof.
  refine (proj1
    (federated_round_trip Sample.granting Sample.transport Sample.staticConfig
       {| ext_cache := Some (boot Sample.cold);
          store := store Sample.staticProcess; handed := [] |}
       (boot Sample.cold) Sample.orig _ _)).
  - reflexivity.
  - vm_compute. eauto.
Defined.

(** ** More of the cache, one caller at a time *)

Section MoreCache.

Context `{ext : Externals} (W : World).

(** A [GetToken] that finds the cache stale at both tests is the exchange
    and, if it succeeds, the store. *)
Lemma GetToken_stale s :
  freshAt W s = false → freshAt W (missed s) = false →
  GetToken W s =
    match exchangeStart (cache s) (awsProvider W (awsCalls s)) with
    | inl err => (("", Some err), asked (missed (missed s)))
    | inr req =>
        match exchangeFinish (httpClient_Do W (length (sent s)) req) with
        | (_, _, Some err) => (("", Some err), sending req (asked (missed (missed s))))
        | (token, expiresIn, None) =>
            ((token, None),
             stored W token expiresIn (sending req (asked (missed (missed s)))))
        end
    end.
Proof.
  intros H1 H2. rewrite GetToken_eq, H1, H2, exchangeToken_halves.
  rewrite !awsCalls_missed, !sent_missed, !cache_missed.
  destruct (exchangeStart _ _) as [err|req]; [done|].
  by destruct (exchangeFinish _) as [[token expiresIn] [err|]].
Qed.

(** X5. When the identity provider fails, [GetToken] sends no request:
    it returns the provider's error, wrapped under the message of that
    step, and leaves the cache as it was. *)
Theorem provider_failure_sends_nothing (s : Sys) (awsToken : string) (e : error) :
  freshAt W s = false → freshAt W (missed s) = false →
  awsProvider W (awsCalls s) = (awsToken, Some e) →
  ∃ err,
    (GetToken W s).1 = ("", Some err) ∧
    Unwrap err = Some e ∧
    Error err = "failed to get AWS token: " +:+ Error e ∧
    sent (GetToken W s).2 = sent s ∧
    awsCalls (GetToken W s).2 = S (awsCalls s) ∧
    cache (GetToken W s).2 = cache s.
Proof.
  intros H1 H2 Haws. rewrite (GetToken_stale _ H1 H2), Haws. simpl.
  eexists. split_and!; try done.
  - by rewrite !sent_missed.
  - by rewrite !awsCalls_missed.
  - by rewrite !cache_missed.
Qed.

(** X6. When the HTTP client fails, [GetToken] has sent the one request
    and sends no other: it returns the client's error, wrapped under the
    message of that step, and leaves the cache as it was. *)
Theorem transport_failure_not_retried (s : Sys) (req : TokenRequest) (e : error) :
  freshAt W s = false → freshAt W (missed s) = false →
  exchangeStart (cache s) (awsProvider W (awsCalls s)) = inr req →
  httpClient_Do W (length (sent s)) req = inr e →
  ∃ err,
    (GetToken W s).1 = ("", Some err) ∧
    Unwrap err = Some e ∧
    Error err = "token exchange request failed: " +:+ Error e ∧
    sent (GetToken W s).2 = sent s ++ [req] ∧
    awsCalls (GetToken W s).2 = S (awsCalls s) ∧
    cache (GetToken W s).2 = cache s.
Proof.
  intros H1 H2 Hstart Hdo. rewrite (GetToken_stale _ H1 H2), Hstart, Hdo. simpl.
  eexists. split_and!; try done.
  - by rewrite !sent_missed.
  - by rewrite !awsCalls_missed.
  - by rewrite !cache_missed.
Qed.

(** X7. One call of [GetToken] makes one attempt at most: it calls the
    identity provider once or not at all, and sends one request or none;
    a request is sent only after the provider gave a token, and it is the
    POST to the OIDC endpoint of the workspace with the form of the token
    exchange, that token as subject and the client id of the cache. *)
Theorem GetToken_one_attempt (s : Sys) :
  (awsCalls (GetToken W s).2 = awsCalls s ∧ sent (GetToken W s).2 = sent s) ∨
  (awsCalls (GetToken W s).2 = S (awsCalls s) ∧
   (sent (GetToken W s).2 = sent s ∨
    ∃ awsToken,
      awsProvider W (awsCalls s) = (awsToken, None) ∧
      sent (GetToken W s).2 =
        sent s ++
          [{| Method := "POST";
              URL := workspaceURL (cache s) +:+ "/oidc/v1/token";
              Form := [("grant_type", "urn:ietf:params:oauth:grant-type:token-exchange");
                       ("subject_token", awsToken);
                       ("subject_token_type", "urn:ietf:params:oauth:token-type:jwt");
                       ("client_id", spClientID (cache s));
                       ("scope", "all-apis")];
              ContentType := "application/x-www-form-urlencoded" |}])).
Proof.
  rewrite GetToken_eq.
  destruct (freshAt W s) eqn:H1; [by left|].
  destruct (freshAt W (missed s)) eqn:H2.
  { left. simpl. by rewrite awsCalls_missed, sent_missed. }
  right. rewrite exchangeToken_halves.
  rewrite !awsCalls_missed, !sent_missed, !cache_missed.
  destruct (awsProvider W (awsCalls s)) as [awsToken [e|]] eqn:Haws; simpl.
  { rewrite !awsCalls_missed, !sent_missed. by split; [|left]. }
  destruct (http_NewRequest _ _); simpl.
  { rewrite !awsCalls_missed, !sent_missed. by split; [|left]. }
  destruct (exchangeFinish _) as [[token expiresIn] [err|]]; simpl;
    rewrite !awsCalls_missed, !sent_missed; (split; [done|]); right; by exists awsToken.
Qed.

(** X8. [GetToken] never changes the URL, the client id or the buffer of
    the cache, and never stores an empty token: the cache is as it was, or
    it holds a token that is not empty, the one the call returns. A call
    that returns a token leaves that token in the cache. *)
Theorem GetToken_keeps_cache_sound (s : Sys) :
  let c := cache s in
  let c' := cache (GetToken W s).2 in
  workspaceURL c' = workspaceURL c ∧
  spClientID c' = spClientID c ∧
  expiryBuffer c' = expiryBuffer c ∧
  (c' = c ∨ cachedToken c' ≠ "") ∧
  (∀ token, (GetToken W s).1 = (token, None) → cachedToken c' = token).
Proof.
  intros c c'. subst c c'. rewrite GetToken_eq.
  destruct (freshAt W s) eqn:H1.
  { simpl. split_and!; try done; [by left|]. by intros ? [= <-]. }
  destruct (freshAt W (missed s)) eqn:H2.
  { simpl. rewrite !cache_missed. split_and!; try done; [by left|]. by intros ? [= <-]. }
  pose proof (exchangeToken_frame W (missed (missed s))) as (Hc & _ & _).
  rewrite !cache_missed in Hc.
  destruct (exchangeToken W (missed (missed s)))
    as [[[token expiresIn] [err|]] s'] eqn:Hex; simpl in *.
  - rewrite Hc. split_and!; try done. by left.
  - rewrite Hc. split_and!; try done.
    + right. by eapply exchangeToken_token.
    + by intros ? [= <-].
Qed.

End MoreCache.

(** *** The lifetime of a stored token *)

Lemma wrap64_over z :
  2 ^ 63 ≤ z < 2 ^ 64 + 2 ^ 63 → time.wrap64 z = z - 2 ^ 64.
Proof.
  intros Hz. unfold time.wrap64.
  replace (z + 2 ^ 63) with (z + 2 ^ 63 - 2 ^ 64 + 1 * 2 ^ 64) by lia.
  rewrite Z_mod_plus_full, Z.mod_small; lia.
Qed.

Lemma mul_Second_exact n :
  0 ≤ n ≤ 9223372036 → time.mul n time.Second = n * 1000000000.
Proof.
  intros Hn. unfold time.mul. change time.Second with 1000000000.
  apply wrap64_small. unfold time.min_int64, time.max_int64. lia.
Qed.

Lemma mul_Second_wraps n :
  9223372037 ≤ n ≤ 18446744073 →
  time.mul n time.Second = n * 1000000000 - 2 ^ 64.
Proof.
  intros Hn. unfold time.mul. change time.Second with 1000000000.
  apply wrap64_over. lia.
Qed.

Section Lifetime.

Context `{ext : Externals} (W : World).

Lemma stale_calls_provider s :
  freshAt W s = false → freshAt W (missed s) = false →
  awsCalls (GetToken W s).2 = S (awsCalls s).
Proof.
  intros H1 H2. rewrite GetToken_eq, H1, H2.
  pose proof (exchangeToken_frame W (missed (missed s))) as (_ & _ & Haws).
  rewrite !awsCalls_missed in Haws.
  by destruct (exchangeToken W (missed (missed s)))
    as [[[token expiresIn] [err|]] s'].
Qed.

(** A second test of a cache that a successful exchange of a response
    with a positive [expires_in] follows. *)
Lemma GetToken_granted s resp body tokenResp :
  freshAt W s = false → freshAt W (missed s) = false →
  answered W (missed (missed s)) resp →
  Body resp = (body, None) →
  StatusCode resp = StatusOK →
  json_Unmarshal_token body = (tokenResp, None) →
  AccessToken tokenResp ≠ "" →
  0 < ExpiresIn tokenResp →
  ∃ awsToken,
    awsProvider W (awsCalls s) = (awsToken, None) ∧
    GetToken W s =
      ((AccessToken tokenResp, None),
       stored W (AccessToken tokenResp) (ExpiresIn tokenResp)
         (sending (exchangeRequest (cache s) awsToken) (asked (missed (missed s))))).
Proof.
  intros H1 H2 (awsToken & Haws & Hreq & Hdo) Hbody Hstatus Hjson Htok Httl.
  rewrite awsCalls_missed, ?awsCalls_missed in Haws.
  rewrite !sent_missed, !cache_missed in Hdo. rewrite !cache_missed in Hreq.
  exists awsToken. split; [done|].
  rewrite (GetToken_stale W s H1 H2), Haws. simpl.
  unfold oidcTokenEndpoint in Hreq |- *. rewrite Hreq, Hdo. simpl.
  unfold readResponse. rewrite Hbody, bool_decide_eq_false_2 by (intros ?; done).
  rewrite Hjson, bool_decide_eq_false_2 by done.
  by rewrite bool_decide_eq_false_2 by lia.
Qed.

(** X9. The expiry [GetToken] stores with the token of a response whose
    [expires_in] is positive. Up to 9223372036 seconds it is that many
    seconds after the clock reading taken once the exchange has returned.
    From 9223372037 to 18446744073 seconds the product with [time.Second]
    wraps around in 64 bits, and the stored expiry is before that clock
    reading. *)
Theorem stored_expiry (s : Sys) (resp : Response) (body : string)
    (tokenResp : tokenExchangeResponse) :
  freshAt W s = false → freshAt W (missed s) = false →
  answered W (missed (missed s)) resp →
  Body resp = (body, None) →
  StatusCode resp = StatusOK →
  json_Unmarshal_token body = (tokenResp, None) →
  AccessToken tokenResp ≠ "" →
  0 < ExpiresIn tokenResp →
  let now := clock W (ticks (missed (missed s))) in
  let expiry := tokenExpiry (cache (GetToken W s).2) in
  (GetToken W s).1 = (AccessToken tokenResp, None) ∧
  cachedToken (cache (GetToken W s).2) = AccessToken tokenResp ∧
  (ExpiresIn tokenResp ≤ 9223372036 →
   expiry = now + ExpiresIn tokenResp * 1000000000) ∧
  (9223372037 ≤ ExpiresIn tokenResp ≤ 18446744073 →
   expiry = now + ExpiresIn tokenResp * 1000000000 - 2 ^ 64 ∧ expiry < now).
Proof.
  intros H1 H2 Hans Hbody Hstatus Hjson Htok Httl now expiry. subst now expiry.
  destruct (GetToken_granted _ _ _ _ H1 H2 Hans Hbody Hstatus Hjson Htok Httl)
    as (awsToken & _ & ->).
  simpl. unfold time.Add. split_and!; try done.
  - intros Hle. rewrite mul_Second_exact by lia. done.
  - intros Hbig. rewrite mul_Second_wraps by done. lia.
Qed.

(** X10. A token that does not outlive the buffer is never served from
    the cache. When the [expires_in] of the response, in nanoseconds, is
    no more than the buffer of the cache, or is in the range in which the
    product wraps around, the token is returned and stored, and the next
    call of [GetToken] finds it unusable and calls the identity provider
    again. *)
Theorem short_lived_token_not_reused (s : Sys) (resp : Response) (body : string)
    (tokenResp : tokenExchangeResponse) :
  freshAt W s = false → freshAt W (missed s) = false →
  answered W (missed (missed s)) resp →
  Body resp = (body, None) →
  StatusCode resp = StatusOK →
  json_Unmarshal_token body = (tokenResp, None) →
  AccessToken tokenResp ≠ "" →
  0 ≤ expiryBuffer (cache s) ≤ time.max_int64 →
  (∀ n, clock W n ≤ clock W (S n)) →
  (0 < ExpiresIn tokenResp ≤ 9223372036 ∧
   ExpiresIn tokenResp * 1000000000 ≤ expiryBuffer (cache s)) ∨
  9223372037 ≤ ExpiresIn tokenResp ≤ 18446744073 →
  let s' := (GetToken W s).2 in
  (GetToken W s).1 = (AccessToken tokenResp, None) ∧
  cachedToken (cache s') = AccessToken tokenResp ∧
  (fastPath W s').1 = None ∧
  awsCalls (GetToken W s').2 = S (S (awsCalls s)).
Proof.
  intros H1 H2 Hans Hbody Hstatus Hjson Htok Hbuf Hmono Hrange s'.
  assert (0 < ExpiresIn tokenResp) as Httl by (destruct Hrange; lia).
  destruct (GetToken_granted _ _ _ _ H1 H2 Hans Hbody Hstatus Hjson Htok Httl)
    as (awsToken & _ & Hget).
  subst s'. rewrite Hget. simpl.
  set (s' := stored W _ _ _).
  assert (freshAt W s' = false) as Hf.
  { apply not_true_is_false. unfold freshAt. rewrite usable_true. subst s'. simpl.
    rewrite !cache_missed, neg_exact by (unfold time.min_int64; lia).
    unfold time.Add. intros [_ Hlt].
    pose proof (Hmono (ticks (missed (missed s)))).
    destruct Hrange as [[Hle Hshort]|Hbig].
    - rewrite mul_Second_exact in Hlt by lia. lia.
    - rewrite mul_Second_wraps in Hlt by done. lia. }
  pose proof (freshAt_missed W s' (Hmono _) Hf) as Hf'.
  pose proof (stale_calls_provider s' Hf Hf') as Hcalls.
  rewrite fastPath_eq, Hf, Hcalls. subst s'. simpl.
  by rewrite !awsCalls_missed.
Qed.

Lemma GetTokens_S n s :
  GetTokens W (S n) s =
    let (r, s1) := GetToken W s in
    let (rs, s2) := GetTokens W n s1 in (r :: rs, s2).
Proof. done. Qed.

Lemma iter_ticked n s :
  cache (Nat.iter n ticked s) = cache s ∧
  ticks (Nat.iter n ticked s) = (ticks s + n)%nat ∧
  awsCalls (Nat.iter n ticked s) = awsCalls s ∧
  sent (Nat.iter n ticked s) = sent s.
Proof.
  induction n as [|n (Hc & Ht & Ha & Hs)]; simpl; [split_and!; try done; lia|].
  rewrite Hc, Ht, Ha, Hs. split_and!; try done; lia.
Qed.

(** Calls in a row, each of which finds the cache usable. *)
Lemma GetTokens_fresh n s :
  (∀ k, (k < n)%nat → freshAt W (Nat.iter k ticked s) = true) →
  GetTokens W n s =
    (replicate n (cachedToken (cache s), None), Nat.iter n ticked s).
Proof.
  revert s. induction n as [|n IH]; intros s Hfresh; [done|].
  assert (freshAt W s = true) as Hf by (apply (Hfresh 0%nat); lia).
  rewrite GetTokens_S, GetToken_eq, Hf.
  rewrite IH.
  - by rewrite Nat.iter_succ_r.
  - intros k Hk. rewrite <- Nat.iter_succ_r. apply Hfresh. lia.
Qed.

Lemma fresh_readings n s :
  time.min_int64 < expiryBuffer (cache s) ≤ time.max_int64 →
  cachedToken (cache s) ≠ "" →
  (∀ k, (k < n)%nat →
        clock W (ticks s + k) < tokenExpiry (cache s) - expiryBuffer (cache s)) →
  ∀ k, (k < n)%nat → freshAt W (Nat.iter k ticked s) = true.
Proof.
  intros Hbuf Hne Hnow k Hk. unfold freshAt.
  destruct (iter_ticked k s) as (-> & -> & _).
  rewrite usable_true, neg_exact by done. split; [done|].
  specialize (Hnow k Hk). lia.
Qed.

(** X11. Calls that find the cache usable. When the cached token is not
    empty and each of the next [n] clock readings is before the expiry
    less the buffer, [n] calls of [GetToken] in a row all return the cached
    token; they read the clock once each, leave the cache as it is, call
    the identity provider not once and send nothing. *)
Theorem cached_calls (n : nat) (s : Sys) :
  time.min_int64 < expiryBuffer (cache s) ≤ time.max_int64 →
  cachedToken (cache s) ≠ "" →
  (∀ k, (k < n)%nat →
        clock W (ticks s + k) < tokenExpiry (cache s) - expiryBuffer (cache s)) →
  (GetTokens W n s).1 = replicate n (cachedToken (cache s), None) ∧
  cache (GetTokens W n s).2 = cache s ∧
  ticks (GetTokens W n s).2 = (ticks s + n)%nat ∧
  awsCalls (GetTokens W n s).2 = awsCalls s ∧
  sent (GetTokens W n s).2 = sent s.
Proof.
  intros Hbuf Hne Hnow.
  rewrite (GetTokens_fresh n s) by (by apply fresh_readings).
  destruct (iter_ticked n s) as (Hc & Ht & Ha & Hs). simpl. done.
Qed.

(** X12. From a cache that is not usable, one successful exchange
    serves the calls that follow. When the response carries a token for
    [expires_in] seconds, up to 9223372036, and the clock readings of the
    [n] calls that follow are before the stored expiry less the buffer,
    the [n + 1] calls all return that token, and between them the identity
    provider is called once and one request is sent. *)
Theorem one_exchange_serves_later_calls (n : nat) (s : Sys) (resp : Response)
    (body : string) (tokenResp : tokenExchangeResponse) :
  freshAt W s = false → freshAt W (missed s) = false →
  answered W (missed (missed s)) resp →
  Body resp = (body, None) →
  StatusCode resp = StatusOK →
  json_Unmarshal_token body = (tokenResp, None) →
  AccessToken tokenResp ≠ "" →
  0 < ExpiresIn tokenResp ≤ 9223372036 →
  time.min_int64 < expiryBuffer (cache s) ≤ time.max_int64 →
  let stored_at := ticks (missed (missed s)) in
  (∀ k, (k < n)%nat →
        clock W (S stored_at + k) <
          clock W stored_at + ExpiresIn tokenResp * 1000000000
            - expiryBuffer (cache s)) →
  (GetTokens W (S n) s).1 = replicate (S n) (AccessToken tokenResp, None) ∧
  awsCalls (GetTokens W (S n) s).2 = S (awsCalls s) ∧
  ∃ awsToken,
    awsProvider W (awsCalls s) = (awsToken, None) ∧
    sent (GetTokens W (S n) s).2 = sent s ++ [exchangeRequest (cache s) awsToken].
Proof.
  intros H1 H2 Hans Hbody Hstatus Hjson Htok Httl Hbuf stored_at Hnow.
  destruct (GetToken_granted _ _ _ _ H1 H2 Hans Hbody Hstatus Hjson Htok
              ltac:(lia)) as (awsToken & Haws & Hget).
  rewrite GetTokens_S, Hget.
  set (s' := stored W _ _ _).
  rewrite (GetTokens_fresh n s').
  2: { apply fresh_readings.
       - subst s'. simpl. by rewrite !cache_missed.
       - done.
       - intros k Hk. subst s'. simpl. rewrite !cache_missed.
         unfold time.Add. rewrite mul_Second_exact by lia.
         apply Hnow. done. }
  destruct (iter_ticked n s') as (_ & _ & Ha & Hs). simpl.
  rewrite Ha, Hs. subst s'. simpl. rewrite !awsCalls_missed, !sent_missed.
  split_and!; try done. by exists awsToken.
Qed.

End Lifetime.

(** *** The same on the sample worlds *)

Lemma provider_failure_witness :
  ∃ err,
    (GetToken Sample.awsCredError (Sample.start Sample.stale)).1 = ("", Some err) ∧
    Error err = "failed to get AWS token: aws cred error" ∧
    sent (GetToken Sample.awsCredError (Sample.start Sample.stale)).2 = [] ∧
    cache (GetToken Sample.awsCredError (Sample.start Sample.stale)).2 = Sample.stale.
Proof.
  destruct (provider_failure_sends_nothing Sample.awsCredError
              (Sample.start Sample.stale) "" (errorString "aws cred error"))
    as (err & Hget & _ & Herr & Hsent & _ & Hcache).
  - vm_compute. reflexivity.
  - vm_compute. reflexivity.
  - reflexivity.
  - exists err. split; [exact Hget|]. split; [exact Herr|].
    split; [exact Hsent | exact Hcache].
Defined.

Lemma transport_failure_witness :
  ∃ err,
    (GetToken Sample.unreachable (Sample.start Sample.cold)).1 = ("", Some err) ∧
    Error err = "token exchange request failed: connection refused" ∧
    length (sent (GetToken Sample.unreachable (Sample.start Sample.cold)).2) = 1%nat.
Proof.
  destruct (transport_failure_not_retried Sample.unreachable
              (Sample.start Sample.cold)
              (exchangeRequest Sample.cold "aws-token")
              (errorString "connection refused"))
    as (err & Hget & _ & Herr & Hsent & _).
  - vm_compute. reflexivity.
  - vm_compute. reflexivity.
  - reflexivity.
  - reflexivity.
  - exists err. split; [exact Hget|]. split; [exact Herr|].
    rewrite Hsent. reflexivity.
Defined.

Lemma stored_expiry_witness :
  tokenExpiry
    (cache (GetToken (ext := Sample.externals_more) Sample.centuries
              (Sample.start Sample.cold)).2)
  < Sample.t0.
Proof.
  refine (proj2 (proj2 (proj2 (proj2
    (stored_expiry (ext := Sample.externals_more) Sample.centuries
       (Sample.start Sample.cold)
       {| StatusCode := 200; Body := (Sample.threeCenturiesBody, None) |}
       Sample.threeCenturiesBody
       {| AccessToken := "long"; TokenType := ""; ExpiresIn := 9999999999 |}
       _ _ _ _ _ _ _ _))) _)).
  - vm_compute. reflexivity.
  - vm_compute. reflexivity.
  - exists "aws-token". vm_compute. done.
  - reflexivity.
  - reflexivity.
  - vm_compute. reflexivity.
  - vm_compute. done.
  - vm_compute. reflexivity.
  - vm_compute. split; discriminate.
Defined.

Lemma short_lived_token_witness :
  (GetToken (ext := Sample.externals_more) Sample.brief
     (Sample.start Sample.cold)).1 = ("brief", None) ∧
  awsCalls
    (GetToken (ext := Sample.externals_more) Sample.brief
       (GetToken (ext := Sample.externals_more) Sample.brief
          (Sample.start Sample.cold)).2).2 = 2%nat.
Proof.
  destruct (short_lived_token_not_reused (ext := Sample.externals_more) Sample.brief
              (Sample.start Sample.cold)
              {| StatusCode := 200; Body := (Sample.fiveMinuteBody, None) |}
              Sample.fiveMinuteBody
              {| AccessToken := "brief"; TokenType := ""; ExpiresIn := 300 |})
    as (Hget & _ & _ & Hcalls).
  - vm_compute. reflexivity.
  - vm_compute. reflexivity.
  - exists "aws-token". vm_compute. done.
  - reflexivity.
  - reflexivity.
  - vm_compute. reflexivity.
  - vm_compute. done.
  - vm_compute. split; discriminate.
  - intros n. unfold Sample.brief, Sample.world, clock, time.Millisecond,
      time.Microsecond, time.Nanosecond. lia.
  - left. vm_compute. repeat split; discriminate.
  - split; [exact Hget | exact Hcalls].
Defined.

Lemma cached_calls_witness :
  (GetTokens Sample.granting 3 (Sample.start Sample.warm)).1
    = replicate 3 ("tok-abc", None) ∧
  awsCalls (GetTokens Sample.granting 3 (Sample.start Sample.warm)).2 = 0%nat.
Proof.
  destruct (cached_calls Sample.granting 3 (Sample.start Sample.warm))
    as (Hr & _ & _ & Ha & _).
  - vm_compute. split; [reflexivity | discriminate].
  - vm_compute. done.
  - intros k Hk. assert (k = 0 ∨ k = 1 ∨ k = 2)%nat as [->|[->| ->]] by lia;
      vm_compute; reflexivity.
  - split; [exact Hr | exact Ha].
Defined.

Lemma one_exchange_witness :
  (GetTokens Sample.granting 3 (Sample.start Sample.cold)).1
    = replicate 3 ("fresh", None) ∧
  awsCalls (GetTokens Sample.granting 3 (Sample.start Sample.cold)).2 = 1%nat.
Proof.
  destruct (one_exchange_serves_later_calls Sample.granting 2
              (Sample.start Sample.cold)
              {| StatusCode := 200; Body := (Sample.okBody, None) |}
              Sample.okBody
              {| AccessToken := "fresh"; TokenType := ""; ExpiresIn := 3600 |})
    as (Hr & Ha & _).
  - vm_compute. reflexivity.
  - vm_compute. reflexivity.
  - exists "aws-token". vm_compute. done.
  - reflexivity.
  - reflexivity.
  - vm_compute. reflexivity.
  - vm_compute. done.
  - vm_compute. split; [reflexivity | discriminate].
  - vm_compute. split; [reflexivity | discriminate].
  - intros k Hk. assert (k = 0 ∨ k = 1)%nat as [->| ->] by lia;
      vm_compute; reflexivity.
  - split; [exact Hr | exact Ha].
Defined.

(** ** More of the STS provider *)

Section MoreProvider.

Import STSTokenProvider.
Context (W : STSTokenProvider.World).

Lemma provider_cacheFresh_frame (s : STSTokenProvider.Sys) :
  self (STSTokenProvider.cacheFresh W s).2 = self s ∧
  stsCalls (STSTokenProvider.cacheFresh W s).2 = stsCalls s ∧
  ((STSTokenProvider.cacheFresh W s).1 = true → cachedToken (self s) ≠ "").
Proof.
  rewrite provider_cacheFresh_eq. case_bool_decide; simpl; [|done].
  split_and!; try done.
Qed.

(** X13. What [GetWebIdentityToken] returns and keeps. It calls STS
    once or, when it serves its cached token, not at all. A token
    returned with a nil error is not empty and is the token the provider
    holds afterwards; an error comes with the empty string, after one call
    of STS, and leaves the cached token and its expiry as they were. *)
Theorem provider_token_sound (s : STSTokenProvider.Sys) :
  let r := GetWebIdentityToken W s in
  (stsCalls r.2 = stsCalls s ∨ stsCalls r.2 = S (stsCalls s)) ∧
  match r.1 with
  | (token, None) => token ≠ "" ∧ cachedToken (self r.2) = token
  | (token, Some _) =>
      token = "" ∧ self r.2 = self s ∧ stsCalls r.2 = S (stsCalls s)
  end.
Proof.
  destruct (provider_cacheFresh_frame s) as (Hself & Hcalls & Hne).
  unfold GetWebIdentityToken, bind.
  destruct (STSTokenProvider.cacheFresh W s) as [[] s1]; simpl in *.
  { split; [by left|]. rewrite Hself. by split; [apply Hne|]. }
  unfold stsClient_GetWebIdentityToken.
  destruct (stsClient W (stsCalls s1)) as [output|err]; simpl.
  - destruct (WebIdentityToken output) as [token|]; simpl.
    + case_bool_decide; simpl.
      * rewrite Hcalls. by split; [right|].
      * destruct (Expiration output); simpl; rewrite Hcalls; by split; [right|].
    + rewrite Hcalls. by split; [right|].
  - rewrite Hcalls. by split; [right|].
Qed.

(** X14. The failures of STS. When the cached token does not pass the
    test: an error of the STS client is returned wrapped, under the
    message of that step; an answer with no token, or with the empty one,
    is an error too, although the client reported none. In both cases
    nothing is cached. *)
Theorem provider_failures (s : STSTokenProvider.Sys) :
  (STSTokenProvider.cacheFresh W s).1 = false →
  (∀ e, stsClient W (stsCalls s) = inr e →
        ∃ err,
          (GetWebIdentityToken W s).1 = ("", Some err) ∧
          Unwrap err = Some e ∧
          Error err = "failed to get web identity token from STS: " +:+ Error e ∧
          self (GetWebIdentityToken W s).2 = self s) ∧
  (∀ output, stsClient W (stsCalls s) = inl output →
             WebIdentityToken output = None ∨ WebIdentityToken output = Some "" →
             (GetWebIdentityToken W s).1
               = ("", Some (errorString "STS returned empty token")) ∧
             self (GetWebIdentityToken W s).2 = self s).
Proof.
  intros Hstale. destruct (provider_cacheFresh_frame s) as (Hself & Hcalls & _).
  unfold GetWebIdentityToken, bind.
  destruct (STSTokenProvider.cacheFresh W s) as [ok s1]; simpl in *. subst ok.
  unfold stsClient_GetWebIdentityToken. rewrite Hcalls. split.
  - intros e ->. simpl. eexists. by split_and!.
  - by intros output -> [-> | ->].
Qed.

(** X15. A token fetched from STS is served from the provider's cache
    afterwards. When the cached token does not pass the test and STS
    answers with a token that is not empty and an expiration, a second call
    whose clock reading is more than 30 seconds before that expiration
    returns the same token and does not call STS. *)
Theorem provider_fetch_then_hit (s : STSTokenProvider.Sys) (output : Output)
    (token : string) (expiration : Z) :
  (STSTokenProvider.cacheFresh W s).1 = false →
  stsClient W (stsCalls s) = inl output →
  WebIdentityToken output = Some token →
  token ≠ "" →
  Expiration output = Some expiration →
  let s' := (GetWebIdentityToken W s).2 in
  clock W (ticks s') < expiration - 30 * time.Second →
  (GetWebIdentityToken W s).1 = (token, None) ∧
  (GetWebIdentityToken W s').1 = (token, None) ∧
  stsCalls (GetWebIdentityToken W s').2 = S (stsCalls s).
Proof.
  intros Hstale Hsts Htok Hne Hexp.
  destruct (provider_cacheFresh_frame s) as (Hself & Hcalls & _).
  assert (∃ s1, GetWebIdentityToken W s =
                  ((token, None),
                   {| self := {| cachedToken := token; tokenExpiry := expiration |};
                      ticks := ticks s1; stsCalls := S (stsCalls s) |}))
    as (s1 & ->).
  { unfold GetWebIdentityToken, bind.
    destruct (STSTokenProvider.cacheFresh W s) as [ok s1]; simpl in *. subst ok.
    unfold stsClient_GetWebIdentityToken. rewrite Hcalls, Hsts, Htok.
    rewrite bool_decide_eq_false_2 by done. rewrite Hexp. simpl.
    by exists s1. }
  simpl. intros Hnow. split; [done|].
  unfold GetWebIdentityToken, bind. rewrite provider_cacheFresh_eq. simpl.
  rewrite bool_decide_eq_true_2 by done.
  assert (usable token expiration (30 * time.Second) (clock W (ticks s1)) = true) as ->.
  { apply usable_true. split; [done|].
    change (time.neg (30 * time.Second)) with (- (30 * time.Second)). lia. }
  done.
Qed.

End MoreProvider.

Lemma provider_failures_witness :
  (STSTokenProvider.GetWebIdentityToken
     {| STSTokenProvider.clock := λ n, Sample.t0;
        STSTokenProvider.stsClient := λ _,
          inl {| STSTokenProvider.WebIdentityToken := Some "";
                 STSTokenProvider.Expiration := None |} |}
     Sample.newProvider).1
  = ("", Some (errorString "STS returned empty token")).
Proof.
  refine (proj1 (proj2
    (provider_failures
       {| STSTokenProvider.clock := λ n, Sample.t0;
          STSTokenProvider.stsClient := λ _,
            inl {| STSTokenProvider.WebIdentityToken := Some "";
                   STSTokenProvider.Expiration := None |} |}
       Sample.newProvider _)
    {| STSTokenProvider.WebIdentityToken := Some "";
       STSTokenProvider.Expiration := None |} _ _)).
  - vm_compute. reflexivity.
  - reflexivity.
  - right. reflexivity.
Defined.

Lemma provider_fetch_then_hit_witness :
  let W := {| STSTokenProvider.clock := λ n, Sample.t0 + Z.of_nat n * time.Millisecond;
              STSTokenProvider.stsClient := λ _,
                inl {| STSTokenProvider.WebIdentityToken := Some "aws-token";
                       STSTokenProvider.Expiration := Some (Sample.t0 + time.Hour) |} |} in
  STSTokenProvider.stsCalls
    (STSTokenProvider.GetWebIdentityToken W
       (STSTokenProvider.GetWebIdentityToken W Sample.newProvider).2).2
  = 1%nat.
Proof.
  intros W.
  refine (proj2 (proj2
    (provider_fetch_then_hit W Sample.newProvider
       {| STSTokenProvider.WebIdentityToken := Some "aws-token";
          STSTokenProvider.Expiration := Some (Sample.t0 + time.Hour) |}
       "aws-token" (Sample.t0 + time.Hour) _ _ _ _ _ _))).
  - vm_compute. reflexivity.
  - reflexivity.
  - reflexivity.
  - vm_compute. done.
  - reflexivity.
  - vm_compute. reflexivity.
Defined.

(** ** More of the concurrent callers *)

Section MoreConcurrent.

Import Concurrent.
Context `{ext : Externals}.

Ltac by_step H :=
  match type of H with
  | step ?e ?σ = Some _ =>
      destruct e; simpl in H; repeat case_match; simplify_eq
  end.

Lemma exchangeStart_request c r req :
  exchangeStart c r = inr req →
  ∃ awsToken, r = (awsToken, None) ∧ req = exchangeRequest c awsToken.
Proof.
  destruct r as [awsToken [err|]]; simpl; [done|].
  destruct (http_NewRequest _ _); [done|]. intros [= <-]. eauto.
Qed.

Lemma exchangeRequest_config c c0 awsToken :
  workspaceURL c = workspaceURL c0 → spClientID c = spClientID c0 →
  exchangeRequest c awsToken = exchangeRequest c0 awsToken.
Proof. unfold exchangeRequest. by intros -> ->. Qed.

Lemma wired_init c t n : wired c (init c t n).
Proof. unfold wired. simpl. split_and!; try done. by left. Qed.

Lemma wired_step c0 e σ σ' :
  safe σ → wired c0 σ → step e σ = Some σ' → wired c0 σ'.
Proof.
  intros Hs (Hurl & Hid & Hbuf & Htok & Hlen & Hwire) Hstep.
  by_step Hstep; unfold wired; simpl; split_and!; try done; try lia.
  - right. eapply (safe_holds _ Hs); [eassumption|done].
  - rewrite length_app. simpl. lia.
  - apply Forall_app. split; [done|]. apply Forall_singleton.
    match goal with
    | H : exchangeStart _ _ = inr _ |- _ =>
        apply exchangeStart_request in H as (awsToken & _ & ->)
    end.
    exists awsToken. by apply exchangeRequest_config.
Qed.

Lemma live_init c t n : live (init c t n).
Proof.
  split; simpl; [done|]. intros i k [? _]%lookup_replicate. done.
Qed.

Lemma live_step e σ σ' : safe σ → live σ → step e σ = Some σ' → live σ'.
Proof.
  intros Hs Hl Hstep.
  assert (∀ i p q k j r,
            goroutines σ !! i = Some p → (∀ k' r', p ≠ Leading k' r') →
            goroutines σ !! j = Some (Leading k r) →
            <[i := q]> (goroutines σ) !! j = Some (Leading k r)) as Hkeep.
  { intros i p q k j r Hi Hp Hj. rewrite list_lookup_insert_ne; [done|].
    intros ->. rewrite Hi in Hj. simplify_eq. by eapply Hp. }
  assert (∀ i p q k j,
            goroutines σ !! i = Some p →
            <[i := q]> (goroutines σ) !! j = Some (Waiting k) →
            q = Waiting k ∧ j = i ∨ goroutines σ !! j = Some (Waiting k)) as Hold.
  { intros i p q k j Hi Hj.
    apply list_lookup_insert_Some in Hj as [(? & ? & ?)|[? ?]]; simplify_eq; eauto. }
  assert (∀ i k p q,
            goroutines σ !! i = Some (Leading k p) →
            ∃ j r, <[i := Leading k q]> (goroutines σ) !! j = Some (Leading k r))
    as Hself.
  { intros i k p q Hi. exists i, q.
    apply list_lookup_insert_eq. by eapply lookup_lt_Some. }
  by_step Hstep; destruct Hl as [Hlead Hwait]; split; simpl.
  all: try assumption.
  (* the leader moves on within its call *)
  all: try (intros k0 Hk0;
            match goal with
            | H : goroutines _ !! _ = Some (Leading _ _) |- _ =>
                rewrite (safe_leader _ Hs _ _ _ H) in Hk0; simplify_eq;
                by eapply Hself
            end).
  (* another caller moves on *)
  all: try (intros k0 Hk0; destruct (Hlead _ Hk0) as (j0 & r0 & Hj0);
            exists j0, r0; eapply Hkeep; [eassumption | done | exact Hj0]).
  (* the waiters, where the calls and the key stay *)
  all: try (intros i0 k0 Hi0;
            match goal with
            | H : goroutines _ !! _ = Some _ |- _ =>
                destruct (Hold _ _ _ _ _ H Hi0) as [[? ?]|?]
            end; simplify_eq; [..| by eauto]).
  all: try done.
  - (* a caller joins the call in flight *)
    destruct (safe_flight _ Hs _ ltac:(eassumption)) as (c & Hc & _). eauto.
  - (* a call is registered *)
    intros k0 [= <-]. eexists _, _.
    apply list_lookup_insert_eq. by eapply lookup_lt_Some.
  - intros i0 k0 Hi0.
    eapply Hold in Hi0 as [[? ?]|Hi0]; [| |eassumption]; simplify_eq.
    destruct (Hwait _ _ Hi0) as (c & Hc & [Hres|Hfl]); [|congruence].
    exists c. split; [|by left]. by apply lookup_app_l_Some.
  - (* the key is deleted: nobody leads *)
    intros k0. case_bool_decide as Hfl; [done|].
    pose proof (safe_leader _ Hs _ _ _ ltac:(eassumption)). done.
  - (* the results are published *)
    intros i0 k0 Hi0.
    eapply Hold in Hi0 as [[? ?]|Hi0]; [| |eassumption]; simplify_eq.
    destruct (Hwait _ _ Hi0) as (c & Hc & Hres).
    match goal with
    | H : goroutines _ !! _ = Some (Leading ?k (FnDone _)) |- _ =>
        destruct (decide (k0 = k)) as [->|Hne]
    end.
    + eexists. split; [by rewrite list_lookup_alter_eq, Hc|]. simpl. by left.
    + exists c. split; [by rewrite list_lookup_alter_ne|].
      destruct Hres as [?|Hfl]; [by left|]. right.
      rewrite bool_decide_eq_false_2; [done|]. rewrite Hfl. by intros [= ->].
Qed.

Lemma sound_run c t n evs σ :
  run evs (init c t n) = Some σ → safe σ ∧ wired c σ ∧ live σ.
Proof.
  assert (∀ σ0, safe σ0 ∧ wired c σ0 ∧ live σ0 →
                run evs σ0 = Some σ → safe σ ∧ wired c σ ∧ live σ) as Hgen.
  { induction evs as [|e evs IH]; intros σ0 (Hs & Hw & Hl); simpl.
    - by intros [= <-].
    - destruct (step e σ0) as [σ1|] eqn:Hstep; simpl; [|done].
      apply IH. split_and!;
        [by eapply safe_step | by eapply wired_step | by eapply live_step]. }
  apply Hgen. split_and!; [apply safe_init | apply wired_init | apply live_init].
Qed.

(** X16. Whatever the schedule and the answers, concurrent callers leave
    the URL, the client id and the buffer of the cache alone; the cache
    either is as it started or holds a token that is not empty; and every
    request handed to the HTTP client is the exchange request of the
    cache's URL and client id, no more of them than calls of
    [exchangeToken]. *)
Theorem concurrent_cache_sound (c : tokenCache) (t : Z) (n : nat)
    (evs : list event) (σ : State) :
  run evs (init c t n) = Some σ →
  workspaceURL (shared σ) = workspaceURL c ∧
  spClientID (shared σ) = spClientID c ∧
  expiryBuffer (shared σ) = expiryBuffer c ∧
  (shared σ = c ∨ cachedToken (shared σ) ≠ "") ∧
  (length (wire σ) ≤ started σ)%nat ∧
  ∀ req, req ∈ wire σ →
    Method req = "POST" ∧
    URL req = workspaceURL c +:+ "/oidc/v1/token" ∧
    ContentType req = "application/x-www-form-urlencoded" ∧
    ∃ awsToken,
      Form req =
        [("grant_type", "urn:ietf:params:oauth:grant-type:token-exchange");
         ("subject_token", awsToken);
         ("subject_token_type", "urn:ietf:params:oauth:token-type:jwt");
         ("client_id", spClientID c);
         ("scope", "all-apis")].
Proof.
  intros Hrun. destruct (sound_run _ _ _ _ _ Hrun) as (_ & Hw & _).
  destruct Hw as (Hurl & Hid & Hbuf & Htok & Hlen & Hwire).
  split_and!; try done.
  intros req Hreq. rewrite Forall_forall in Hwire.
  destruct (Hwire _ Hreq) as (awsToken & ->). simpl. split_and!; try done.
  by exists awsToken.
Qed.

(** A goroutine that runs the function can always move. *)
Lemma leader_moves σ i k p :
  goroutines σ !! i = Some (Leading k p) → can_move σ i.
Proof.
  intros Hi. unfold can_move. destruct p; simpl; rewrite Hi.
  - left. by destruct (freshNow σ).
  - right. left. intros r. by destruct (exchangeStart _ _).
  - right. right. intros r. by destruct (exchangeFinish r) as [[? ?] [?|]].
  - by left.
  - by left.
  - by left.
Qed.

Lemma unfinished_exists (l : list pc) :
  forallb finished l ≠ true → ∃ i p, l !! i = Some p ∧ finished p = false.
Proof.
  induction l as [|p l IH]; simpl; [done|].
  destruct (finished p) eqn:Hp; simpl.
  - intros Hl. destruct (IH Hl) as (i & q & ? & ?). by exists (S i), q.
  - intros _. by exists 0%nat, p.
Qed.

(** In a state that is safe and live, a caller that has not returned
    can move, or the leader of the call it waits for can. *)
Lemma waits_for_mover σ i p :
  live σ → goroutines σ !! i = Some p → finished p = false →
  can_move σ i ∨
  ∃ k j q, p = Waiting k ∧ flight σ = Some k ∧
           goroutines σ !! j = Some (Leading k q) ∧ can_move σ j.
Proof.
  intros [Hlead Hwait] Hi Hfin.
  destruct p as [| |k|k q|]; simpl in Hfin; try done.
  - left. left. simpl. rewrite Hi. by destruct (freshNow σ).
  - left. left. simpl. rewrite Hi. by destruct (flight σ).
  - destruct (Hwait _ _ Hi) as (cl & Hcl & [[r Hr]|Hfl]).
    + left. left. simpl. rewrite Hi, Hcl. destruct cl as [? res].
      simpl in Hr. by subst res.
    + right. destruct (Hlead _ Hfl) as (j & q & Hj).
      exists k, j, q. split_and!; try done. by eapply leader_moves.
  - left. by eapply leader_moves.
Qed.

Lemma some_caller_moves σ :
  live σ → ¬ all_returned σ →
  ∃ i, (i < length (goroutines σ))%nat ∧ can_move σ i.
Proof.
  intros Hl Hnot.
  destruct (unfinished_exists _ Hnot) as (i & p & Hi & Hp).
  destruct (waits_for_mover _ _ _ Hl Hi Hp) as [?|(k & j & q & _ & _ & Hj & ?)].
  - exists i. split; [|done]. by apply lookup_lt_Some in Hi.
  - exists j. split; [|done]. by apply lookup_lt_Some in Hj.
Qed.

(** X17. No caller is left waiting for nobody. In every state that
    concurrent callers reach, a caller that has not returned can take a
    step, or it waits in [Do] for the call in flight, and the caller that
    runs the function for that call can take a step. So while a caller has
    not returned, some caller can move. *)
Theorem no_caller_stuck (c : tokenCache) (t : Z) (n : nat)
    (evs : list event) (σ : State) :
  run evs (init c t n) = Some σ →
  (∀ i p, goroutines σ !! i = Some p → finished p = false →
     can_move σ i ∨
     ∃ k j q, p = Waiting k ∧ flight σ = Some k ∧
              goroutines σ !! j = Some (Leading k q) ∧ can_move σ j) ∧
  (¬ all_returned σ → ∃ i, (i < n)%nat ∧ can_move σ i).
Proof.
  intros Hrun. destruct (sound_run _ _ _ _ _ Hrun) as (_ & _ & Hl).
  split.
  - intros i p. by apply waits_for_mover.
  - intros Hnot. destruct (some_caller_moves _ Hl Hnot) as (i & Hi & ?).
    exists i. split; [|done].
    apply run_length in Hrun. simpl in Hrun.
    rewrite length_replicate in Hrun. lia.
Qed.

End MoreConcurrent.

(** ** More of the failures *)

Section MoreFailures.

Context `{ext : Externals} (W : World).

(** X18. An error of [GetToken] stops the round trip: the error is
    returned as it is, no copy of the request is made, no header map is
    changed and the base transport is handed nothing. *)
Theorem token_error_stops_round_trip (cfg : Config)
    (base : http.Request → gmap string (list string) →
            (Response + error) * gmap string (list string))
    (p : Process) (sys : Sys) (req : http.Request) (token : string) (err : error) :
  ext_cache p = Some sys →
  (GetToken W sys).1 = (token, Some err) →
  (RoundTrip W cfg base req p).1 = inr err ∧
  store (RoundTrip W cfg base req p).2 = store p ∧
  handed (RoundTrip W cfg base req p).2 = handed p ∧
  ext_cache (RoundTrip W cfg base req p).2 = Some (GetToken W sys).2.
Proof.
  intros Hc Hget. unfold RoundTrip, bind, cache_GetToken. rewrite Hc.
  destruct (GetToken W sys) as [[tok e] sys']. simpl in Hget.
  injection Hget as -> ->. done.
Qed.

(** X19. A failure is not remembered. With a clock that does not run
    backwards, a call of [GetToken] that returns an error has called the
    identity provider once and left the cache as it was, and the next call
    calls the identity provider again. *)
Theorem failure_not_remembered (s : Sys) (token : string) (err : error) :
  (∀ i j, (i ≤ j)%nat → clock W i ≤ clock W j) →
  (GetToken W s).1 = (token, Some err) →
  let s' := (GetToken W s).2 in
  token = "" ∧
  cache s' = cache s ∧
  awsCalls s' = S (awsCalls s) ∧
  awsCalls (GetToken W s').2 = S (S (awsCalls s)).
Proof.
  intros Hmono Hget s'. subst s'. revert Hget. rewrite GetToken_eq.
  destruct (freshAt W s) eqn:H1; [done|].
  destruct (freshAt W (missed s)) eqn:H2; [done|].
  pose proof (exchangeToken_frame W (missed (missed s))) as (Hc & Ht & Ha).
  rewrite !cache_missed in Hc. rewrite !awsCalls_missed in Ha.
  destruct (exchangeToken W (missed (missed s)))
    as [[[tok expiresIn] [e|]] s'] eqn:Hex; simpl in *; [|done].
  intros [= <- <-]. split_and!; try done.
  assert (ticks s ≤ ticks s')%nat as Hle.
  { pose proof (ticks_missed s). pose proof (ticks_missed (missed s)). lia. }
  assert (freshAt W s' = false) as Hf.
  { unfold freshAt in *. rewrite Hc. eapply usable_later; [|exact H1].
    by apply Hmono. }
  assert (freshAt W (missed s') = false) as Hf'.
  { apply freshAt_missed; [|done]. apply Hmono. lia. }
  rewrite (stale_calls_provider W s' Hf Hf'). by rewrite Ha.
Qed.

(** X20. What makes an exchange succeed. Of a response, [exchangeToken]
    returns a nil error exactly when the body was read, the status is 200,
    the body decodes and its token is not empty; it then returns that
    token, and as its lifetime the [expires_in] of the body if that is
    positive and 3600 otherwise: a lifetime it returns is positive. *)
Theorem exchange_succeeds_iff (resp : Response) (token : string) (expiresIn : Z) :
  readResponse resp = (token, expiresIn, None) ↔
  ∃ body tokenResp,
    Body resp = (body, None) ∧
    StatusCode resp = 200 ∧
    json_Unmarshal_token body = (tokenResp, None) ∧
    AccessToken tokenResp ≠ "" ∧
    token = AccessToken tokenResp ∧
    expiresIn = (if bool_decide (0 < ExpiresIn tokenResp)
                 then ExpiresIn tokenResp else 3600) ∧
    0 < expiresIn.
Proof.
  unfold readResponse. destruct (Body resp) as [body [e|]] eqn:Hbody.
  { split; [done|]. by intros (? & ? & ? & _). }
  unfold StatusOK. case_bool_decide as Hstatus.
  { destruct (json_Unmarshal_error body) as [errResp uerr].
    split; [by destruct (_ && _)|]. by intros (? & ? & _ & ? & _). }
  destruct (json_Unmarshal_token body) as [tokenResp [e|]] eqn:Hjson.
  { split; [done|]. intros (? & ? & [= <-] & _ & Hj & _). by rewrite Hjson in Hj. }
  case_bool_decide as Htok.
  { split; [done|]. intros (? & ? & [= <-] & _ & Hj & Hne & _).
    rewrite Hjson in Hj. by simplify_eq. }
  change (time.Seconds defaultTokenTTL) with 3600. split.
  - intros [= <- <-]. exists body, tokenResp. split_and!; try done.
    + repeat case_bool_decide; try done; lia.
    + case_bool_decide; lia.
  - intros (? & ? & [= <-] & _ & Hj & _ & -> & -> & _).
    rewrite Hjson in Hj. simplify_eq. repeat case_bool_decide; try done; lia.
Qed.

End MoreFailures.

Lemma token_error_witness :
  ∃ err,
    (RoundTrip Sample.awsCredError Sample.staticConfig Sample.transport Sample.orig
       {| ext_cache := Some (boot Sample.cold);
          store := store Sample.staticProcess; handed := [] |}).1 = inr err ∧
    handed
      (RoundTrip Sample.awsCredError Sample.staticConfig Sample.transport Sample.orig
         {| ext_cache := Some (boot Sample.cold);
            store := store Sample.staticProcess; handed := [] |}).2 = [].
Proof.
  destruct (token_error_stops_round_trip Sample.awsCredError Sample.staticConfig
              Sample.transport
              {| ext_cache := Some (boot Sample.cold);
                 store := store Sample.staticProcess; handed := [] |}
              (boot Sample.cold) Sample.orig ""
              (Errorf_w "failed to get AWS token: " (errorString "aws cred error")))
    as (Hres & _ & Hhanded & _).
  - reflexivity.
  - vm_compute. reflexivity.
  - eexists. split; [exact Hres | exact Hhanded].
Defined.

Lemma failure_not_remembered_witness :
  awsCalls
    (GetToken Sample.refusing
       (GetToken Sample.refusing (Sample.start Sample.stale)).2).2 = 2%nat.
Proof.
  refine (proj2 (proj2 (proj2
    (failure_not_remembered Sample.refusing (Sample.start Sample.stale) ""
       (errorString "token exchange failed (invalid_client): bad credentials")
       _ _)))).
  - intros i j Hij. unfold Sample.refusing, Sample.world, clock, time.Millisecond,
      time.Microsecond, time.Nanosecond. lia.
  - vm_compute. reflexivity.
Defined.

(** ** The callers return *)

Section Termination.

Import Concurrent.
Context `{ext : Externals}.

Ltac step_of H :=
  match type of H with
  | step ?e ?σ = Some _ =>
      destruct e; simpl in H; repeat case_match; simplify_eq
  end.

Lemma work_goto i p q σ :
  goroutines σ !! i = Some p →
  (work (goto i q σ) + rank p = work σ + rank q)%nat.
Proof.
  unfold work. simpl. generalize (goroutines σ). clear σ. intros l. revert i.
  induction l as [|x l IH]; intros [|i]; csimpl; try done.
  - intros [= ->]. lia.
  - intros Hi. specialize (IH _ Hi). lia.
Qed.

(** A step of a caller takes one off the steps it can still take, at
    least; the passing of time takes nothing. *)
Lemma step_work e σ σ' :
  step e σ = Some σ' → (work σ' + moves [e] ≤ work σ)%nat.
Proof.
  intros Hstep. step_of Hstep; simpl.
  all: try match goal with
       | H : goroutines _ !! _ = Some ?p |- context [work (goto _ ?q ?τ)] =>
           let Hw := fresh in
           pose proof (work_goto _ p q τ H) as Hw; simpl in Hw;
           unfold work in *; simpl in *; lia
       end.
  unfold work. simpl. lia.
Qed.

Lemma moves_app evs evs' : moves (evs ++ evs') = (moves evs + moves evs')%nat.
Proof.
  induction evs as [|[] evs IH]; simpl; lia.
Qed.

Lemma run_work evs σ σ' :
  run evs σ = Some σ' → (work σ' + moves evs ≤ work σ)%nat.
Proof.
  revert σ. induction evs as [|e evs IH]; intros σ.
  - intros [= <-]. simpl. lia.
  - cbn [run]. destruct (step e σ) as [σ1|] eqn:Hstep; simpl; [|done].
    intros Hrun. apply IH in Hrun. apply step_work in Hstep.
    destruct e; simpl in *; lia.
Qed.

Lemma work_init c t n : work (init c t n) = (8 * n)%nat.
Proof.
  unfold work. simpl. induction n as [|n IH]; csimpl; [done|]. rewrite IH. lia.
Qed.

Lemma run_app evs evs' σ σ' σ'' :
  run evs σ = Some σ' → run evs' σ' = Some σ'' → run (evs ++ evs') σ = Some σ''.
Proof.
  revert σ. induction evs as [|e evs IH]; intros σ; simpl.
  - by intros [= ->].
  - destruct (step e σ) as [σ1|]; simpl; [|done]. apply IH.
Qed.

(** X21. Every caller returns. In a schedule of [n] callers there are
    eight steps of callers for each of them, at most, whatever the
    identity provider and the endpoint answer. And a schedule can always be
    continued, with any answers, until every caller has returned: no state
    the callers reach is one in which [GetToken] cannot return. *)
Theorem callers_return (c : tokenCache) (t : Z) (n : nat)
    (evs : list event) (σ : State)
    (aws : string * option error) (http : Response + error) :
  run evs (init c t n) = Some σ →
  (moves evs ≤ 8 * n)%nat ∧
  ∃ evs' σ',
    run (evs ++ evs') (init c t n) = Some σ' ∧
    all_returned σ' ∧
    ∀ e, e ∈ evs' → ∃ i, e = Run i ∨ e = Aws i aws ∨ e = Http i http.
Proof.
  intros Hrun. split.
  { apply run_work in Hrun. rewrite work_init in Hrun. lia. }
  remember (work σ) as m eqn:Hm. revert evs σ Hrun Hm.
  induction (lt_wf m) as [m _ IH]. intros evs σ Hrun Hm.
  destruct (decide (forallb finished (goroutines σ) = true)) as [Hall|Hnot].
  { exists [], σ. rewrite app_nil_r. split_and!; try done.
    intros e He. by apply elem_of_nil in He. }
  assert (∃ i, can_move σ i) as [i Hi].
  { destruct (sound_run _ _ _ _ _ Hrun) as (_ & _ & Hl).
    destruct (some_caller_moves _ Hl Hnot) as (i & _ & ?). by exists i. }
  assert (∃ e σ1, step e σ = Some σ1 ∧ (e = Run i ∨ e = Aws i aws ∨ e = Http i http))
    as (e & σ1 & Hstep & He).
  { destruct Hi as [[σ1 H1]|[Hi|Hi]].
    - exists (Run i), σ1. eauto.
    - destruct (Hi aws) as [σ1 H1]. exists (Aws i aws), σ1. eauto.
    - destruct (Hi http) as [σ1 H1]. exists (Http i http), σ1. eauto. }
  assert (run (evs ++ [e]) (init c t n) = Some σ1) as Hrun1.
  { eapply run_app; [exact Hrun|]. simpl. by rewrite Hstep. }
  pose proof (step_work _ _ _ Hstep) as Hw.
  assert (moves [e] = 1%nat) as Hone by (by destruct He as [->|[->| ->]]).
  destruct (IH (work σ1) ltac:(lia) _ _ Hrun1 eq_refl) as (evs' & σ' & Hrun' & Hall & Hevs).
  exists (e :: evs'), σ'. split_and!; try done.
  - by rewrite <- app_assoc in Hrun'.
  - intros e' [->|He']%elem_of_cons; [by exists i|]. by apply Hevs.
Qed.

End Termination.

Lemma concurrent_cache_witness :
  workspaceURL (Concurrent.shared Sample.refusedRaceEnd)
    = "https://adb-123.cloud.databricks.com" ∧
  cachedToken (Concurrent.shared Sample.refusedRaceEnd) ≠ "" ∧
  (length (Concurrent.wire Sample.refusedRaceEnd)
     ≤ Concurrent.started Sample.refusedRaceEnd)%nat.
Proof.
  destruct (concurrent_cache_sound Sample.cold Sample.t0 2 Sample.refusedRace
              Sample.refusedRaceEnd) as (Hurl & _ & _ & Htok & Hlen & _).
  - vm_compute. reflexivity.
  - split; [exact Hurl|]. split; [|exact Hlen].
    destruct Htok as [Hsame|Hne]; [|exact Hne].
    vm_compute in Hsame. discriminate Hsame.
Defined.

Lemma no_caller_stuck_witness :
  let σ := default (Concurrent.init Sample.cold Sample.t0 2)
             (Concurrent.run
                [Concurrent.Run 0; Concurrent.Run 1; Concurrent.Run 0; Concurrent.Run 1]
                (Concurrent.init Sample.cold Sample.t0 2)) in
  Concurrent.goroutines σ !! 1%nat = Some (Concurrent.Waiting 0) ∧
  (can_move σ 1 ∨
   ∃ k j q, Concurrent.Waiting 0 = Concurrent.Waiting k ∧
            Concurrent.flight σ = Some k ∧
            Concurrent.goroutines σ !! j = Some (Concurrent.Leading k q) ∧
            can_move σ j).
Proof.
  intros σ. split; [vm_compute; reflexivity|].
  refine (proj1
    (no_caller_stuck Sample.cold Sample.t0 2
       [Concurrent.Run 0; Concurrent.Run 1; Concurrent.Run 0; Concurrent.Run 1]
       σ _) 1%nat (Concurrent.Waiting 0) _ _).
  - vm_compute. reflexivity.
  - vm_compute. reflexivity.
  - reflexivity.
Defined.

Lemma callers_return_witness :
  (moves Sample.sharedRace ≤ 8 * 3)%nat.
Proof.
  refine (proj1
    (callers_return Sample.cold Sample.t0 3 Sample.sharedRace Sample.sharedRaceEnd
       ("aws-token", None) (Sample.reply 200 Sample.okBody) _)).
  vm_compute. reflexivity.
Defined.
